(** * A shallow embedding of [js/sam.js]: box segmentation, mask
    resampling and boundary tracing.

    JavaScript integers are modelled as [Z]; the floating-point values of
    the model tensors are modelled as exact rationals [Q].  Typed arrays
    ([Uint8ClampedArray], [Uint8Array], [Float32Array]) are lists updated
    by index: a write out of range is ignored and a read out of range
    yields [undefined], which a [Uint8ClampedArray] stores as [0]. *)

From Stdlib Require Import Strings.String.
From Stdlib Require Import ZArith List Lia Bool QArith Qround.
Import ListNotations.

Set Warnings "-abstract-large-number".

Open Scope Z_scope.

(** ** Typed arrays *)

(** Storing a number into a [Uint8ClampedArray] clamps it to [0..255]. *)
Definition clamp_byte (v : Z) : Z := Z.max 0 (Z.min 255 v).

Definition is_byte (v : Z) : Prop := 0 <= v <= 255.

Fixpoint set_nth {A} (l : list A) (n : nat) (v : A) : list A :=
  match l, n with
  | [], _ => []
  | _ :: t, O => v :: t
  | h :: t, S n' => h :: set_nth t n' v
  end.

(** [new Uint8ClampedArray(n)]: [n] zero bytes. *)
Definition new_u8 (n : Z) : list Z := repeat 0 (Z.to_nat n).

(** [a[i] = v] on a [Uint8ClampedArray]; out-of-range writes are ignored. *)
Definition store_u8 (a : list Z) (i v : Z) : list Z :=
  if 0 <=? i then set_nth a (Z.to_nat i) (clamp_byte v) else a.

(** [a[i]] on a byte array; out of range it is [undefined], stored as [0]. *)
Definition read_u8 (a : list Z) (i : Z) : Z :=
  if 0 <=? i then nth (Z.to_nat i) a 0 else 0.

(** ** Loops *)

(** [for (let i = lo; i < lo + n; i++) acc = body(i, acc)]. *)
Fixpoint zfor {A} (i : Z) (n : nat) (body : Z -> A -> A) (acc : A) : A :=
  match n with
  | O => acc
  | S n' => zfor (Z.succ i) n' body (body i acc)
  end.

Definition for_lt {A} (lo hi : Z) (body : Z -> A -> A) (acc : A) : A :=
  zfor lo (Z.to_nat (hi - lo)) body acc.

(** The nested loop shared by [resampleMaskTo] and the colour-threshold
    fallback:
    [for (y = 0; y < th; y++) for (x = 0; x < tw; x++) out[y*tw + x] = G(y, x)]. *)
Definition grid_store (tw th : Z) (G : Z -> Z -> Z) (out : list Z) : list Z :=
  for_lt 0 th (fun yy out =>
    for_lt 0 tw (fun xx out => store_u8 out (yy * tw + xx) (G yy xx)) out) out.

(** ** [resampleMaskTo] *)

(** [Math.floor(xx * w / tw)] for [tw > 0]. *)
Definition src_coord (xx w tw : Z) : Z := (xx * w) / tw.

Definition resampleMaskTo (mask : list Z) (w h tw th : Z) : list Z :=
  let out := new_u8 (tw * th) in
  grid_store tw th (fun yy xx =>
    let sx := src_coord xx w tw in
    let sy := src_coord yy h th in
    read_u8 mask (sy * w + sx)) out.

(** ** Rasters and the crop *)

(** A source canvas: its width and height, its pixels as [getImageData]
    exposes them (row-major RGBA bytes) and its origin-clean flag. *)
Record Raster := mkRaster { rw : Z; rh : Z; rdata : list Z; rclean : bool }.

(** The caller's box [{x, y, w, h}], in canvas coordinates. *)
Record Box := mkBox { box_x : Q; box_y : Q; box_w : Q; box_h : Q }.

(** Pixel [(x, y)] of a raster as its [[r; g; b; a]] bytes. *)
Definition pixel_at (src : Raster) (x y : Z) : list Z :=
  let i := (y * rw src + x) * 4 in
  [read_u8 (rdata src) i; read_u8 (rdata src) (i + 1);
   read_u8 (rdata src) (i + 2); read_u8 (rdata src) (i + 3)].

(** The pixels of the crop when its canvas is [sw x sh] and
    [ctx.getImageData(0, 0, sw, sh)] reads it back as drawn by
    [ctx.drawImage(sourceCanvas, sx, sy, sw, sh, 0, 0, sw, sh)]: a one-to-one
    copy of the in-bounds source pixels, transparent black elsewhere (the
    general case is [getImageData_crop] below). *)
Definition crop_image (src : Raster) (sx sy sw sh : Z) : list Z :=
  flat_map (fun y =>
    flat_map (fun x =>
      let px := sx + x in
      let py := sy + y in
      if (px <? rw src) && (py <? rh src) then pixel_at src px py
      else [0; 0; 0; 0])
      (map Z.of_nat (seq 0 (Z.to_nat sw))))
    (map Z.of_nat (seq 0 (Z.to_nat sh))).

(** [Number.MAX_SAFE_INTEGER]: [new Uint8ClampedArray(n)] throws a
    [RangeError] for an integer length outside [0 .. 2^53 - 1] ([ToIndex]).
    Allocation failures of the engine (out of memory) are not modelled. *)
Definition MAX_SAFE_INTEGER : Z := 2 ^ 53 - 1.

Definition u8_length_ok (n : Z) : bool := (0 <=? n) && (n <=? MAX_SAFE_INTEGER).

(** The Web IDL [unsigned long] and [long] conversions of an integer. *)
Definition to_uint32 (v : Z) : Z := v mod 2 ^ 32.

Definition to_int32 (v : Z) : Z :=
  let u := to_uint32 v in if u <? 2 ^ 31 then u else u - 2 ^ 32.

(** [canvas.width = v] (or [height]): a reflected [unsigned long], so a
    converted value above [2^31 - 1] sets the default [dflt] ([300] for the
    width, [150] for the height). *)
Definition canvas_dim (v dflt : Z) : Z :=
  let u := to_uint32 v in if u <=? 2147483647 then u else dflt.

Definition zrange (n : Z) : list Z := map Z.of_nat (seq 0 (Z.to_nat n)).

(** Pixel [(cx, cy)] of the fresh crop canvas after
    [ctx.drawImage(sourceCanvas, sx, sy, sw, sh, 0, 0, sw, sh)]: the source
    rectangle is copied one-to-one (clipped to the source); the rest stays
    transparent black. *)
Definition crop_pixel (src : Raster) (sx sy sw sh cx cy : Z) : list Z :=
  if (cx <? sw) && (cy <? sh) && (sx + cx <? rw src) && (sy + cy <? rh src)
  then pixel_at src (sx + cx) (sy + cy) else [0; 0; 0; 0].

(** The whole [cw x ch] crop canvas, row-major. *)
Definition crop_canvas (src : Raster) (sx sy sw sh cw ch : Z) : list Z :=
  flat_map (fun cy => flat_map (fun cx => crop_pixel src sx sy sw sh cx cy)
                        (zrange cw)) (zrange ch).

(** [ctx.getImageData(0, 0, gw, gh)] on the [cw x ch] crop canvas, for
    non-zero [gw], [gh]: the [|gw| x |gh|] rectangle with corners [(0, 0)] and
    [(gw, gh)], transparent black outside the canvas. *)
Definition getImageData_crop (src : Raster) (sx sy sw sh cw ch gw gh : Z)
    : list Z :=
  let x0 := Z.min 0 gw in
  let y0 := Z.min 0 gh in
  flat_map (fun j =>
    flat_map (fun i =>
      let cx := x0 + i in
      let cy := y0 + j in
      if (0 <=? cx) && (cx <? cw) && (0 <=? cy) && (cy <? ch)
      then crop_pixel src sx sy sw sh cx cy else [0; 0; 0; 0])
      (zrange (Z.abs gw)))
    (zrange (Z.abs gh)).

(** ** Fallback colour-threshold segmentation *)

(** [(b > 100) && (b > r + 30) && (b > g + 20)] *)
Definition isBlue (r g b : Z) : bool :=
  (100 <? b) && (r + 30 <? b) && (g + 20 <? b).

(** The fallback loop of [segmentBoxOnCanvas] over [cropData.data]. *)
Definition colorThreshold (data : list Z) (sw sh : Z) : list Z :=
  let mask := new_u8 (sw * sh) in
  grid_store sw sh (fun y x =>
    let idx := (y * sw + x) * 4 in
    let r := read_u8 data idx in
    let g := read_u8 data (idx + 1) in
    let b := read_u8 data (idx + 2) in
    if isBlue r g b then 255 else 0) mask.

(** ** Model inference strategy *)

Definition MODEL_SIZE : Z := 1024.

(** [floatData[p*3 + c] = imgData.data[i + c] / 255.0] for [c = 0, 1, 2],
    with [i] stepping by 4 and [p] by 1 over the RGBA buffer. *)
Definition Q_of_byte (v : Z) : Q := inject_Z v / inject_Z 255.

Definition store_f32 (a : list Q) (i : Z) (v : Q) : list Q :=
  if 0 <=? i then set_nth a (Z.to_nat i) v else a.

Fixpoint fillFloat (d : list Z) (p : Z) (floatData : list Q) : list Q :=
  match d with
  | r :: g :: b :: _ :: rest =>
      let floatData := store_f32 floatData (p * 3 + 0) (Q_of_byte r) in
      let floatData := store_f32 floatData (p * 3 + 1) (Q_of_byte g) in
      let floatData := store_f32 floatData (p * 3 + 2) (Q_of_byte b) in
      fillFloat rest (Z.succ p) floatData
  | _ => floatData  (* an ImageData buffer always has a multiple of 4 bytes *)
  end.

Record Tensor := mkTensor { t_data : list Q; t_dims : list Z }.

(** [new ort.Tensor('float32', floatData, [1, 3, S, S])] built from the
    RGBA buffer of the [S x S] resized crop. *)
Definition buildInputTensor (S : Z) (imgData : list Z) : Tensor :=
  let floatData := repeat 0%Q (Z.to_nat (S * S * 3)) in
  mkTensor (fillFloat imgData 0 floatData) [1; 3; S; S].

(** The channel-first (NCHW) layout of an RGBA buffer: all red samples,
    then all green, then all blue, each divided by 255. *)
Fixpoint channel (c : nat) (d : list Z) : list Q :=
  match d with
  | r :: g :: b :: a :: rest => Q_of_byte (nth c [r; g; b; a] 0) :: channel c rest
  | _ => []
  end.

Definition channel_first (imgData : list Z) : list Q :=
  channel 0 imgData ++ channel 1 imgData ++ channel 2 imgData.

(** A computation that may throw. *)
Inductive Exc (A : Type) : Type :=
| Throw : Exc A
| Ret : A -> Exc A.
Arguments Throw {A}.
Arguments Ret {A} _.

(** The loaded ONNX session: its declared [inputNames] ([None] when the
    property is absent) and [run], which either throws or yields the
    results object as an ordered list of named output tensors. *)
Record Session := mkSession {
  inputNames : option (list String.string);
  run : String.string -> Tensor -> Exc (list (String.string * Tensor))
}.

Definition default_input_names : list String.string :=
  ["input"; "images"; "image"; "input_image"]%string.

Definition nth_dim_from_end (dims : list Z) (k : nat) : option Z :=
  if (k <? length dims)%nat then Some (nth (length dims - 1 - k) dims 0)
  else None.

(** [outData[i] > 0.5 ? 255 : 0]; [undefined > 0.5] is false. *)
Definition binarize (outData : list Q) (i : Z) : Z :=
  if 0 <=? i then
    match nth_error outData (Z.to_nat i) with
    | Some v => if Qlt_le_dec (1 # 2) v then 255 else 0
    | None => 0
    end
  else 0.

(** The body of the inner [try] for one input name, after [feeds[name] =
    inputTensor]: run, take the first output, threshold it and resample it to
    the crop size. *)
Definition tryInputName (sess : Session) (inputTensor : Tensor) (sw sh : Z)
    (name : String.string) : Exc (list Z) :=
  match run sess name inputTensor with
  | Throw => Throw
  | Ret results =>
      match results with
      | [] => Throw  (* results[undefined].data: TypeError *)
      | (_, outTensor) :: _ =>
          let outData := t_data outTensor in
          match nth_dim_from_end (t_dims outTensor) 0,
                nth_dim_from_end (t_dims outTensor) 1 with
          | Some ow, Some oh =>
              (* new Uint8ClampedArray(ow * oh): RangeError *)
              if negb (u8_length_ok (ow * oh)) then Throw
              else
                let mask := for_lt 0 (ow * oh)
                  (fun i mask => store_u8 mask i (binarize outData i))
                  (new_u8 (ow * oh)) in
                (* new Uint8ClampedArray(tw * th) in resampleMaskTo *)
                if negb (u8_length_ok (sw * sh)) then Throw
                else Ret (resampleMaskTo mask ow oh sw sh)
          | _, _ =>
              (* A missing dimension is [undefined]: [ow * oh] is NaN, the
                 mask is empty, and [resampleMaskTo] reads [mask[NaN]] for
                 every target pixel, so every byte of the result is 0. *)
              if negb (u8_length_ok (sw * sh)) then Throw
              else Ret (new_u8 (sw * sh))
          end
      end
  end.

(** [for (const name of inputNamesToTry) { try { ... return } catch { continue } }]:
    [None] when every name failed. *)
Fixpoint tryInputNames (sess : Session) (inputTensor : Tensor) (sw sh : Z)
    (names : list String.string) : option (list Z) :=
  match names with
  | [] => None
  | name :: rest =>
      match tryInputName sess inputTensor sw sh name with
      | Ret mask => Some mask
      | Throw => tryInputNames sess inputTensor sw sh rest
      end
  end.

Section Segment.

(** The browser's stretch of the [cw x ch] crop canvas onto the [S x S]
    canvas ([tctx.drawImage(crop, 0, 0, S, S)] then [getImageData]). *)
Variable stretch : list Z -> Z -> Z -> Z -> list Z.

(** The model branch guarded by the outer [try]: [Some mask] when a name
    succeeded, [None] when execution falls through to the fallback. *)
Definition modelInference (sess : Session) (src : Raster) (sx sy sw sh cw ch : Z)
    : option (list Z) :=
  (* tctx.drawImage(crop, ...): InvalidStateError for a zero-size crop canvas;
     tctx.getImageData: SecurityError when the crop is not origin-clean *)
  if (cw =? 0) || (ch =? 0) || negb (rclean src) then None
  else
  let imgData := stretch (crop_canvas src sx sy sw sh cw ch) cw ch MODEL_SIZE in
  let inputTensor := buildInputTensor MODEL_SIZE imgData in
  let inputNamesToTry :=
    match inputNames sess with
    | Some names => names
    | None => default_input_names
    end in
  tryInputNames sess inputTensor sw sh inputNamesToTry.

Record SegResult := mkSegResult { mask : list Z; width : Z; height : Z }.

(** The fallback after the model branch: [ctx.getImageData(0, 0, sw, sh)]
    (its [long] arguments are [ToInt32] of [sw], [sh]), then
    [new Uint8ClampedArray(sw * sh)] and the threshold loop. *)
Definition fallbackMask (src : Raster) (sx sy sw sh cw ch : Z) : Exc (list Z) :=
  let gw := to_int32 sw in
  let gh := to_int32 sh in
  if (gw =? 0) || (gh =? 0) then Throw            (* IndexSizeError *)
  else if negb (rclean src) then Throw            (* SecurityError *)
  else if negb (u8_length_ok (sw * sh)) then Throw (* RangeError *)
  else Ret (colorThreshold (getImageData_crop src sx sy sw sh cw ch gw gh) sw sh).

(** [segmentBoxOnCanvas(sourceCanvas, box)] given the module state
    [modelReady] and [ortSession]; the box's numbers are finite. *)
Definition segmentBoxOnCanvas (modelReady : bool) (ortSession : option Session)
    (src : Raster) (box : Box) : Exc SegResult :=
  let sx := Z.max 0 (Qfloor (box_x box)) in
  let sy := Z.max 0 (Qfloor (box_y box)) in
  let sw := Z.max 1 (Qfloor (box_w box)) in
  let sh := Z.max 1 (Qfloor (box_h box)) in
  let cw := canvas_dim sw 300 in  (* crop.width = sw *)
  let ch := canvas_dim sh 150 in  (* crop.height = sh *)
  (* ctx.drawImage(sourceCanvas, ...): InvalidStateError for a source canvas
     with a zero dimension *)
  if (rw src <=? 0) || (rh src <=? 0) then Throw
  else
    let fromModel :=
      match modelReady, ortSession with
      | true, Some sess => modelInference sess src sx sy sw sh cw ch
      | _, _ => None
      end in
    match fromModel with
    | Some finalMask => Ret (mkSegResult finalMask sw sh)
    | None =>
        match fallbackMask src sx sy sw sh cw ch with
        | Throw => Throw
        | Ret m => Ret (mkSegResult m sw sh)
        end
    end.

(** The crop of [box] is drawn and read back without an exception: the
    source canvas has no zero dimension and is origin-clean, each side of the
    crop is at most [2^31 - 1] and [sw * sh] is a valid typed-array length. *)
Definition crop_readable (src : Raster) (box : Box) : bool :=
  let sw := Z.max 1 (Qfloor (box_w box)) in
  let sh := Z.max 1 (Qfloor (box_h box)) in
  (0 <? rw src) && (0 <? rh src) && rclean src &&
  (sw <=? 2147483647) && (sh <=? 2147483647) && u8_length_ok (sw * sh).

End Segment.

(** ** [maskToGeoJSON] *)

Record Geometry := mkGeometry {
  g_type : string; coordinates : list (list (Z * Z)) }.
Record Feature := mkFeature { f_type : string; geometry : Geometry }.
Record FeatureCollection := mkFeatureCollection {
  fc_type : string; features : list Feature }.

Definition directions : list (Z * Z) :=
  [(-1, 0); (-1, -1); (0, -1); (1, -1); (1, 0); (1, 1); (0, 1); (-1, 1)].

(** [while (!done && loopGuard++ < 1000000)]: at most this many iterations. *)
Definition LOOP_GUARD : nat := 1000000.

(** [for (i = 0; i < bin.length; i++) if (bin[i]) { start = i; break; }] *)
Fixpoint firstForeground (bin : list Z) (i : Z) : Z :=
  match bin with
  | [] => -1
  | b :: rest => if negb (b =? 0) then i else firstForeground rest (Z.succ i)
  end.

Section Trace.

Variables (bin : list Z) (width height start offsetX offsetY : Z).

(** [idxToXY = (i) => [i % width, Math.floor(i / width)]] *)
Definition idxToXY (i : Z) : Z * Z := (i mod width, i / width).

(** [for (let d = 0; d < 8; d++) { const di = (prevDir + 7 + d) % 8; ... }]:
    the first in-bounds foreground neighbour, as [(ni, di)]. *)
Fixpoint scanNeighbours (cx cy prevDir : Z) (ds : list Z) : option (Z * Z) :=
  match ds with
  | [] => None
  | d :: ds' =>
      let di := (prevDir + 7 + d) mod 8 in
      let (dx, dy) := nth (Z.to_nat di) directions (0, 0) in
      let nx := cx + dx in
      let ny := cy + dy in
      if (0 <=? nx) && (nx <? width) && (0 <=? ny) && (ny <? height)
         && negb (read_u8 bin (ny * width + nx) =? 0)
      then Some (ny * width + nx, di)
      else scanNeighbours cx cy prevDir ds'
  end.

Definition eight : list Z := [0; 1; 2; 3; 4; 5; 6; 7].

(** The tracing loop; [fuel] is the number of iterations [loopGuard] still
    allows, [coords] the points pushed so far. *)
Fixpoint traceLoop (fuel : nat) (curr prevDir : Z) (coords : list (Z * Z))
    : list (Z * Z) :=
  match fuel with
  | O => coords
  | S fuel' =>
      let (cx, cy) := idxToXY curr in
      let coords := coords ++ [(cx + offsetX, cy + offsetY)] in
      match scanNeighbours cx cy prevDir eight with
      | None => coords  (* no neighbour found: done *)
      | Some (ni, di) =>
          if (ni =? start) && (20 <? length coords)%nat then coords
          else traceLoop fuel' ni di coords
      end
  end.

End Trace.

(** [bin[i] = mask[i] ? 1 : 0] for [i < width * height]. *)
Definition binarizeMask (mask : list Z) (width height : Z) : list Z :=
  for_lt 0 (width * height)
    (fun i bin => store_u8 bin i (if read_u8 mask i =? 0 then 0 else 1))
    (new_u8 (width * height)).

Definition maskToGeoJSON (mask : list Z) (width height offsetX offsetY : Z)
    : FeatureCollection :=
  let bin := binarizeMask mask width height in
  let start := firstForeground bin 0 in
  if start =? -1 then mkFeatureCollection "FeatureCollection" []
  else
    let coords :=
      traceLoop bin width height start offsetX offsetY LOOP_GUARD start 0 [] in
    mkFeatureCollection "FeatureCollection"
      [mkFeature "Feature" (mkGeometry "Polygon" [coords])].

(** The rings of the polygons of a feature collection. *)
Definition rings (fc : FeatureCollection) : list (list (list (Z * Z))) :=
  map (fun f => coordinates (geometry f)) (features fc).

(** Test masks: a foreground set given by a predicate over [(x, y)]. *)
Definition mask_of (width height : Z) (fg : Z -> Z -> bool) : list Z :=
  map (fun i => if fg (i mod width) (i / width) then 255 else 0)
    (map Z.of_nat (seq 0 (Z.to_nat (width * height)))).

Definition square4 : list Z :=
  mask_of 4 4 (fun x y => (1 <=? x) && (x <=? 2) && (1 <=? y) && (y <=? 2)).

Definition single10 : list Z :=
  mask_of 10 10 (fun x y => (x =? 5) && (y =? 5)).

(** Foreground pixels [(0,0)], [(1,1)] and [(0,2)] of a [2 x 3] mask. *)
Definition zigzag23 : list Z :=
  mask_of 2 3 (fun x y => ((x =? 0) && (y =? 0)) || ((x =? 1) && (y =? 1))
                          || ((x =? 0) && (y =? 2))).

(** ** [maskToImageData] *)





(** ** [initModel] *)

(** The module-level state [ortSession] and [modelReady]. *)
Record ModuleState := mkModuleState {
  ortSession : option Session; modelReady : bool }.

(** [initModel(modelUrl)], given whether [window.ort] is loaded and the
    outcome of [ort.InferenceSession.create(modelUrl, ...)]; [None] is an
    absent URL. *)
Definition initModel (ortLoaded : bool) (create : string -> Exc Session)
    (modelUrl : option string) (st : ModuleState) : ModuleState :=
  match modelUrl with
  | None | Some EmptyString => mkModuleState (ortSession st) false
  | Some url =>
      if negb ortLoaded then mkModuleState (ortSession st) false
      else
        match create url with
        | Ret sess => mkModuleState (Some sess) true
        | Throw => mkModuleState None false
        end
  end.

(** * Lemmas on the typed-array and loop model *)

Ltac cmp_cases :=
  repeat (match goal with
          | |- context [Nat.eqb ?x ?y] => case (Nat.eqb_spec x y)
          | |- context [Nat.ltb ?x ?y] => case (Nat.ltb_spec x y)
          | |- context [Z.eqb ?x ?y] => case (Z.eqb_spec x y)
          | |- context [Z.ltb ?x ?y] => case (Z.ltb_spec x y)
          | |- context [Z.leb ?x ?y] => case (Z.leb_spec x y)
          end; intro); simpl andb in *.

Lemma set_nth_length {A} (l : list A) n v : length (set_nth l n v) = length l.
Proof.
  revert n; induction l as [|h t IH]; intros [|n]; simpl; auto.
Qed.

Lemma nth_set_nth {A} (l : list A) n v k d :
  nth k (set_nth l n v) d =
  if (k =? n)%nat && (k <? length l)%nat then v else nth k l d.
Proof.
  revert n k; induction l as [|h t IH]; intros [|n] [|k]; simpl;
    try rewrite IH; cmp_cases; auto; lia.
Qed.

Lemma store_u8_length a i v : length (store_u8 a i v) = length a.
Proof.
  unfold store_u8. destruct (0 <=? i); auto using set_nth_length.
Qed.

Lemma nth_store_u8 a i v k :
  nth k (store_u8 a i v) 0 =
  if (Z.of_nat k =? i) && (k <? length a)%nat then clamp_byte v else nth k a 0.
Proof.
  unfold store_u8. destruct (Z.leb_spec 0 i).
  - rewrite nth_set_nth.
    destruct (Nat.eqb_spec k (Z.to_nat i)); destruct (Z.eqb_spec (Z.of_nat k) i);
      simpl; auto; lia.
  - destruct (Z.eqb_spec (Z.of_nat k) i); simpl; auto; lia.
Qed.

Lemma zfor_invariant {A} (P : A -> Prop) (body : Z -> A -> A) :
  (forall i a, P a -> P (body i a)) ->
  forall n i a, P a -> P (zfor i n body a).
Proof.
  intros Hb n; induction n as [|n IH]; intros i a Ha; simpl; auto.
Qed.

Lemma Forall_store_u8 (P : Z -> Prop) a i v :
  Forall P a -> P (clamp_byte v) -> Forall P (store_u8 a i v).
Proof.
  unfold store_u8. intros Ha Hv. destruct (0 <=? i); auto.
  generalize (Z.to_nat i). clear i.
  induction Ha as [|h t Hh Ht IH]; intros [|n]; simpl; auto.
Qed.

Lemma clamp_byte_id v : is_byte v -> clamp_byte v = v.
Proof. unfold is_byte, clamp_byte. lia. Qed.

Lemma new_u8_length n : 0 <= n -> length (new_u8 n) = Z.to_nat n.
Proof. intros _. unfold new_u8. apply repeat_length. Qed.

Lemma Forall_new_u8 (P : Z -> Prop) n : P 0 -> Forall P (new_u8 n).
Proof.
  intros H0. unfold new_u8. induction (Z.to_nat n); simpl; auto.
Qed.

(** One row of stores: [for (x = i; x < i + n; x++) a[base + x] = F(x)]. *)
Lemma nth_zfor_store base (F : Z -> Z) :
  forall n i a k,
  nth k (zfor i n (fun x acc => store_u8 acc (base + x) (F x)) a) 0 =
  if (i <=? Z.of_nat k - base) && (Z.of_nat k - base <? i + Z.of_nat n)
     && (k <? length a)%nat
  then clamp_byte (F (Z.of_nat k - base)) else nth k a 0.
Proof.
  induction n as [|n IH]; intros i a k; simpl.
  - cmp_cases; auto; lia.
  - rewrite IH, store_u8_length, nth_store_u8.
    cmp_cases; auto; try lia.
    replace i with (Z.of_nat k - base) by lia. reflexivity.
Qed.

Lemma zfor_store_length base (F : Z -> Z) n i a :
  length (zfor i n (fun x acc => store_u8 acc (base + x) (F x)) a) = length a.
Proof.
  apply (zfor_invariant (fun b => length b = length a)); auto.
  intros j b Hb. rewrite store_u8_length. exact Hb.
Qed.

Lemma div_mod_row k tw yy :
  0 < tw -> 0 <= k - yy * tw < tw -> k / tw = yy /\ k mod tw = k - yy * tw.
Proof.
  intros Htw Hr. split.
  - symmetry. apply (Z.div_unique_pos k tw yy (k - yy * tw)); lia.
  - symmetry. apply (Z.mod_unique_pos k tw yy (k - yy * tw)); lia.
Qed.

Lemma nth_grid_rows tw (G : Z -> Z -> Z) :
  0 < tw ->
  forall n j a k,
  nth k (zfor j n (fun yy out =>
           for_lt 0 tw (fun xx out => store_u8 out (yy * tw + xx) (G yy xx)) out)
          a) 0 =
  if (j * tw <=? Z.of_nat k) && (Z.of_nat k <? (j + Z.of_nat n) * tw)
     && (k <? length a)%nat
  then clamp_byte (G (Z.of_nat k / tw) (Z.of_nat k mod tw)) else nth k a 0.
Proof.
  intros Htw n; induction n as [|n IH]; intros j a k; simpl.
  - cmp_cases; auto; lia.
  - rewrite IH. unfold for_lt. rewrite zfor_store_length, nth_zfor_store.
    cmp_cases; auto; try lia.
    destruct (div_mod_row (Z.of_nat k) tw j) as [E1 E2]; try lia.
    rewrite E1, E2. reflexivity.
Qed.

Lemma nth_grid_store tw th G a k :
  0 < tw -> 0 <= th ->
  nth k (grid_store tw th G a) 0 =
  if (Z.of_nat k <? tw * th) && (k <? length a)%nat
  then clamp_byte (G (Z.of_nat k / tw) (Z.of_nat k mod tw)) else nth k a 0.
Proof.
  intros Htw Hth. unfold grid_store. unfold for_lt at 1.
  rewrite nth_grid_rows by exact Htw.
  rewrite Z2Nat.id by lia. cmp_cases; auto; lia.
Qed.

Lemma grid_store_length tw th G a : length (grid_store tw th G a) = length a.
Proof.
  unfold grid_store, for_lt.
  apply (zfor_invariant (fun b => length b = length a)); auto.
  intros j b Hb. unfold for_lt. rewrite zfor_store_length. exact Hb.
Qed.

Lemma Forall_grid_store (P : Z -> Prop) tw th G a :
  (forall y x, P (clamp_byte (G y x))) -> Forall P a ->
  Forall P (grid_store tw th G a).
Proof.
  intros HG Ha. unfold grid_store, for_lt.
  apply (zfor_invariant (Forall P)); auto.
  intros j b Hb. apply (zfor_invariant (Forall P)); auto.
  intros i c Hc. apply Forall_store_u8; auto.
Qed.

Lemma Qfloor_div_Z a b : 0 < b -> Qfloor (inject_Z a / inject_Z b) = a / b.
Proof.
  intros Hb. destruct b as [|p|p]; try lia.
  unfold Qfloor, Qdiv, Qmult, Qinv, inject_Z. simpl.
  rewrite Z.mul_1_r. reflexivity.
Qed.

Lemma src_coord_bounds xx w tw :
  1 <= w -> 1 <= tw -> 0 <= xx < tw -> 0 <= src_coord xx w tw < w.
Proof.
  intros Hw Htw Hxx. unfold src_coord. split.
  - apply Z.div_pos; lia.
  - apply Z.div_lt_upper_bound; nia.
Qed.

Lemma src_coord_same xx w : 0 < w -> src_coord xx w w = xx.
Proof. intros Hw. unfold src_coord. apply Z.div_mul. lia. Qed.

Lemma read_u8_nth a i : 0 <= i -> read_u8 a i = nth (Z.to_nat i) a 0.
Proof. intros Hi. unfold read_u8. destruct (Z.leb_spec 0 i); [reflexivity | lia]. Qed.

Lemma resampleMaskTo_length mask w h tw th :
  0 <= tw -> 0 <= th -> length (resampleMaskTo mask w h tw th) = Z.to_nat (tw * th).
Proof.
  intros Htw Hth. unfold resampleMaskTo.
  rewrite grid_store_length, new_u8_length by nia. reflexivity.
Qed.

Lemma read_resampleMaskTo mask w h tw th xx yy :
  1 <= tw -> 1 <= th -> 0 <= xx < tw -> 0 <= yy < th ->
  read_u8 (resampleMaskTo mask w h tw th) (yy * tw + xx) =
  clamp_byte (read_u8 mask (src_coord yy h th * w + src_coord xx w tw)).
Proof.
  intros Htw Hth Hxx Hyy.
  rewrite read_u8_nth by nia. unfold resampleMaskTo.
  rewrite nth_grid_store by lia.
  rewrite new_u8_length by nia. rewrite Z2Nat.id by nia.
  destruct (div_mod_row (yy * tw + xx) tw yy) as [E1 E2]; try lia.
  rewrite E1, E2. replace (yy * tw + xx - yy * tw) with xx by lia.
  cmp_cases; auto; nia.
Qed.

Lemma read_u8_byte a i : Forall is_byte a -> is_byte (read_u8 a i).
Proof.
  intros Ha. unfold read_u8. destruct (0 <=? i).
  - destruct (nth_in_or_default (Z.to_nat i) a 0) as [Hin | ->].
    + rewrite Forall_forall in Ha. auto.
    + unfold is_byte; lia.
  - unfold is_byte; lia.
Qed.

(** * C9 and C10: [resampleMaskTo] *)

(** C9: for each target pixel [(xx, yy)], [resampleMaskTo] stores the byte
    of the source mask at [(floor(xx*w/tw), floor(yy*h/th))]; for target
    sizes [tw, th >= 1] its output has exactly [tw*th] bytes; and resampling a
    [w x h] mask to [w x h] returns the mask unchanged. *)
Theorem resampleMaskTo_nearest_neighbour (m : list Z) (w h : Z) :
  Forall is_byte m -> 0 <= w -> 0 <= h -> length m = Z.to_nat (w * h) ->
  (forall tw th, 1 <= tw -> 1 <= th ->
     length (resampleMaskTo m w h tw th) = Z.to_nat (tw * th) /\
     (forall xx yy, 0 <= xx < tw -> 0 <= yy < th ->
        read_u8 (resampleMaskTo m w h tw th) (yy * tw + xx) =
        read_u8 m (Qfloor (inject_Z (yy * h) / inject_Z th) * w
                   + Qfloor (inject_Z (xx * w) / inject_Z tw)))) /\
  resampleMaskTo m w h w h = m.
Proof.
  intros Hb Hw Hh Hlen. split.
  - intros tw th Htw Hth. split.
    + apply resampleMaskTo_length; lia.
    + intros xx yy Hxx Hyy.
      rewrite read_resampleMaskTo by lia.
      rewrite !Qfloor_div_Z by lia.
      apply clamp_byte_id, read_u8_byte, Hb.
  - destruct (Z.eq_dec w 0) as [Hw0 | Hw0]; [| destruct (Z.eq_dec h 0) as [Hh0 | Hh0]].
    + subst w. simpl in Hlen. apply length_zero_iff_nil in Hlen. subst m.
      apply length_zero_iff_nil. rewrite resampleMaskTo_length by lia. reflexivity.
    + subst h. rewrite Z.mul_0_r in Hlen. apply length_zero_iff_nil in Hlen. subst m.
      apply length_zero_iff_nil. rewrite resampleMaskTo_length by lia. lia.
    + apply nth_ext with (d := 0) (d' := 0).
      * rewrite resampleMaskTo_length by lia. lia.
      * intros k Hk. rewrite resampleMaskTo_length in Hk by lia.
        unfold resampleMaskTo. rewrite nth_grid_store by lia.
        rewrite new_u8_length by nia.
        cmp_cases; try lia.
        rewrite !src_coord_same by lia.
        replace (Z.of_nat k / w * w + Z.of_nat k mod w) with (Z.of_nat k)
          by (rewrite Z.mul_comm; apply Z.div_mod; lia).
        rewrite read_u8_nth by lia. rewrite Nat2Z.id.
        apply clamp_byte_id.
        apply (read_u8_byte m (Z.of_nat k)) in Hb.
        rewrite read_u8_nth, Nat2Z.id in Hb by lia. exact Hb.
Qed.

Lemma resampleMaskTo_nearest_neighbour_witness :
  length (resampleMaskTo [0; 255; 255; 0] 2 2 3 1) = Z.to_nat (3 * 1) /\
  read_u8 (resampleMaskTo [0; 255; 255; 0] 2 2 3 1) (0 * 3 + 2) =
    read_u8 [0; 255; 255; 0] (Qfloor (inject_Z (0 * 2) / inject_Z 1) * 2
                              + Qfloor (inject_Z (2 * 2) / inject_Z 3)) /\
  resampleMaskTo [0; 255; 255; 0] 2 2 2 2 = [0; 255; 255; 0].
Proof.
  destruct (resampleMaskTo_nearest_neighbour [0; 255; 255; 0] 2 2)
    as [Hs Hid].
  - repeat constructor; unfold is_byte; lia.
  - lia.
  - lia.
  - reflexivity.
  - destruct (Hs 3 1) as [Hl Hr]; try lia.
    split; [exact Hl | split; [apply Hr; lia | exact Hid]].
Defined.

(** C10: for source sizes [w, h >= 1], target sizes [tw, th >= 1] and a mask
    of [w*h] bytes, every source pixel [(sx, sy)] that [resampleMaskTo] reads
    for a target pixel lies inside the source ([0 <= sx < w], [0 <= sy < h]),
    so the index [sy*w + sx] is within the mask. *)
Theorem resampleMaskTo_reads_in_bounds (m : list Z) (w h tw th : Z) :
  1 <= w -> 1 <= h -> 1 <= tw -> 1 <= th -> length m = Z.to_nat (w * h) ->
  forall xx yy, 0 <= xx < tw -> 0 <= yy < th ->
  let sx := src_coord xx w tw in
  let sy := src_coord yy h th in
  0 <= sx < w /\ 0 <= sy < h /\
  0 <= sy * w + sx /\ (Z.to_nat (sy * w + sx) < length m)%nat.
Proof.
  intros Hw Hh Htw Hth Hlen xx yy Hxx Hyy sx sy.
  pose proof (src_coord_bounds xx w tw Hw Htw Hxx) as Hsx.
  pose proof (src_coord_bounds yy h th Hh Hth Hyy) as Hsy.
  fold sx in Hsx. fold sy in Hsy.
  split; [exact Hsx | split; [exact Hsy | split]].
  - nia.
  - rewrite Hlen. apply Z2Nat.inj_lt; nia.
Qed.

Lemma resampleMaskTo_reads_in_bounds_witness :
  let sx := src_coord 4 2 5 in
  let sy := src_coord 0 3 1 in
  0 <= sx < 2 /\ 0 <= sy < 3 /\
  0 <= sy * 2 + sx /\ (Z.to_nat (sy * 2 + sx) < length [0; 255; 0; 0; 255; 0])%nat.
Proof.
  apply (resampleMaskTo_reads_in_bounds [0; 255; 0; 0; 255; 0] 2 3 5 1);
    try lia; reflexivity.
Defined.

(** * C1, C2, C3: [segmentBoxOnCanvas] *)

Definition is_mask_byte (v : Z) : Prop := v = 0 \/ v = 255.

Lemma read_grid_store_new tw th G xx yy :
  1 <= tw -> 0 <= xx < tw -> 0 <= yy < th ->
  read_u8 (grid_store tw th G (new_u8 (tw * th))) (yy * tw + xx) =
  clamp_byte (G yy xx).
Proof.
  intros Htw Hxx Hyy.
  rewrite read_u8_nth by nia.
  rewrite nth_grid_store by lia.
  rewrite new_u8_length by nia. rewrite Z2Nat.id by nia.
  destruct (div_mod_row (yy * tw + xx) tw yy) as [E1 E2]; try lia.
  rewrite E1, E2. replace (yy * tw + xx - yy * tw) with xx by lia.
  cmp_cases; auto; nia.
Qed.

Lemma read_u8_Forall (P : Z -> Prop) a i : Forall P a -> P 0 -> P (read_u8 a i).
Proof.
  intros Ha H0. unfold read_u8. destruct (0 <=? i); auto.
  destruct (nth_in_or_default (Z.to_nat i) a 0) as [Hin | ->]; auto.
  rewrite Forall_forall in Ha. auto.
Qed.

Lemma clamp_mask_byte v : is_mask_byte v -> clamp_byte v = v.
Proof. unfold is_mask_byte, clamp_byte. lia. Qed.

Lemma colorThreshold_length data sw sh :
  0 <= sw -> 0 <= sh -> length (colorThreshold data sw sh) = Z.to_nat (sw * sh).
Proof.
  intros. unfold colorThreshold. rewrite grid_store_length, new_u8_length by nia.
  reflexivity.
Qed.

Lemma colorThreshold_mask_bytes data sw sh :
  Forall is_mask_byte (colorThreshold data sw sh).
Proof.
  unfold colorThreshold. apply Forall_grid_store.
  - intros y x. destruct (isBlue _ _ _); cbv; auto.
  - apply Forall_new_u8. left; reflexivity.
Qed.

Lemma read_colorThreshold data sw sh x y :
  1 <= sw -> 0 <= x < sw -> 0 <= y < sh ->
  read_u8 (colorThreshold data sw sh) (y * sw + x) =
  let idx := (y * sw + x) * 4 in
  if isBlue (read_u8 data idx) (read_u8 data (idx + 1)) (read_u8 data (idx + 2))
  then 255 else 0.
Proof.
  intros Hsw Hx Hy. unfold colorThreshold.
  rewrite read_grid_store_new by lia. cbv zeta.
  destruct (isBlue _ _ _); reflexivity.
Qed.

Lemma isBlue_spec r g b :
  isBlue r g b = true <-> b > 100 /\ b > r + 30 /\ b > g + 20.
Proof.
  unfold isBlue. rewrite !andb_true_iff, !Z.ltb_lt. lia.
Qed.

(** The model branch only ever yields a resampled mask of [sw*sh] bytes,
    each 0 or 255. *)
Lemma tryInputName_mask sess t sw sh name m :
  1 <= sw -> 1 <= sh ->
  tryInputName sess t sw sh name = Ret m ->
  length m = Z.to_nat (sw * sh) /\ Forall is_mask_byte m.
Proof.
  intros Hsw Hsh. unfold tryInputName.
  destruct (run sess name t) as [|results]; [discriminate|].
  destruct results as [|[outName outTensor] rest]; [discriminate|].
  destruct (nth_dim_from_end (t_dims outTensor) 0) as [ow|];
    destruct (nth_dim_from_end (t_dims outTensor) 1) as [oh|];
    try (destruct (negb (u8_length_ok (sw * sh))); [discriminate|];
         intros E; injection E as <-; split;
         [apply new_u8_length; lia | apply Forall_new_u8; left; reflexivity]).
  destruct (negb (u8_length_ok (ow * oh))); [discriminate|].
  destruct (negb (u8_length_ok (sw * sh))); [discriminate|].
  intros E; injection E as <-. split.
  - apply resampleMaskTo_length; lia.
  - unfold resampleMaskTo. apply Forall_grid_store.
    + intros yy xx. rewrite clamp_mask_byte; [|apply read_u8_Forall].
      * apply read_u8_Forall; [|left; reflexivity].
        unfold for_lt. apply (zfor_invariant (Forall is_mask_byte)).
        -- intros i a Ha. apply Forall_store_u8; auto.
           unfold binarize. destruct (0 <=? i); [|cbv; auto].
           destruct (nth_error _ _); [destruct (Qlt_le_dec _ _)|]; cbv; auto.
        -- apply Forall_new_u8. left; reflexivity.
      * unfold for_lt. apply (zfor_invariant (Forall is_mask_byte)).
        -- intros i a Ha. apply Forall_store_u8; auto.
           unfold binarize. destruct (0 <=? i); [|cbv; auto].
           destruct (nth_error _ _); [destruct (Qlt_le_dec _ _)|]; cbv; auto.
        -- apply Forall_new_u8. left; reflexivity.
      * left; reflexivity.
    + apply Forall_new_u8. left; reflexivity.
Qed.

Lemma tryInputNames_mask sess t sw sh names m :
  1 <= sw -> 1 <= sh ->
  tryInputNames sess t sw sh names = Some m ->
  length m = Z.to_nat (sw * sh) /\ Forall is_mask_byte m.
Proof.
  intros Hsw Hsh. induction names as [|name rest IH]; simpl; [discriminate|].
  destruct (tryInputName sess t sw sh name) as [|m'] eqn:E; auto.
  intros H; injection H as <-. eapply tryInputName_mask; eauto.
Qed.


Lemma to_uint32_small v : 0 <= v <= 2147483647 -> to_uint32 v = v.
Proof.
  intros Hv. unfold to_uint32. change (2 ^ 32) with 4294967296.
  apply Z.mod_small. lia.
Qed.

Lemma canvas_dim_small v dflt : 0 <= v <= 2147483647 -> canvas_dim v dflt = v.
Proof.
  intros Hv. unfold canvas_dim. rewrite to_uint32_small by exact Hv.
  destruct (Z.leb_spec v 2147483647); lia.
Qed.

Lemma to_int32_small v : 0 <= v <= 2147483647 -> to_int32 v = v.
Proof.
  intros Hv. unfold to_int32. rewrite to_uint32_small by exact Hv.
  change (2 ^ 31) with 2147483648.
  destruct (Z.ltb_spec v 2147483648); lia.
Qed.

Lemma getImageData_crop_normal src sx sy sw sh :
  1 <= sw -> 1 <= sh ->
  getImageData_crop src sx sy sw sh sw sh sw sh = crop_image src sx sy sw sh.
Proof.
  intros Hw Hh. unfold getImageData_crop, crop_image, zrange.
  rewrite !Z.abs_eq by lia.
  replace (Z.min 0 sw) with 0 by lia. replace (Z.min 0 sh) with 0 by lia.
  rewrite !flat_map_concat_map. f_equal. apply map_ext_in. intros y Hy.
  apply in_map_iff in Hy. destruct Hy as [n [<- Hn]]. apply in_seq in Hn.
  rewrite !flat_map_concat_map. f_equal. apply map_ext_in. intros x Hx.
  apply in_map_iff in Hx. destruct Hx as [k [<- Hk]]. apply in_seq in Hk.
  unfold crop_pixel. simpl (0 + _).
  cmp_cases; try reflexivity; lia.
Qed.

Lemma crop_readable_spec src box :
  crop_readable src box = true ->
  let sw := Z.max 1 (Qfloor (box_w box)) in
  let sh := Z.max 1 (Qfloor (box_h box)) in
  0 < rw src /\ 0 < rh src /\ rclean src = true /\
  1 <= sw <= 2147483647 /\ 1 <= sh <= 2147483647 /\ u8_length_ok (sw * sh) = true.
Proof.
  intros H. unfold crop_readable in H. cbv zeta in H |- *.
  rewrite !andb_true_iff in H.
  destruct H as [[[[[H1 H2] H3] H4] H5] H6].
  apply Z.ltb_lt in H1. apply Z.ltb_lt in H2.
  apply Z.leb_le in H4. apply Z.leb_le in H5.
  repeat split; auto; lia.
Qed.

(** On a readable crop, the crop canvas is exactly [sw x sh] and reads back
    as [crop_image]. *)
Lemma segmentBoxOnCanvas_readable stretch modelReady ortSession src box :
  crop_readable src box = true ->
  let sx := Z.max 0 (Qfloor (box_x box)) in
  let sy := Z.max 0 (Qfloor (box_y box)) in
  let sw := Z.max 1 (Qfloor (box_w box)) in
  let sh := Z.max 1 (Qfloor (box_h box)) in
  segmentBoxOnCanvas stretch modelReady ortSession src box =
    match match modelReady, ortSession with
          | true, Some sess => modelInference stretch sess src sx sy sw sh sw sh
          | _, _ => None
          end with
    | Some m => Ret (mkSegResult m sw sh)
    | None => Ret (mkSegResult (colorThreshold (crop_image src sx sy sw sh) sw sh) sw sh)
    end.
Proof.
  intros H sx sy sw sh.
  destruct (crop_readable_spec src box H) as [H1 [H2 [H3 [H4 [H5 H6]]]]].
  fold sw sh in H4, H5, H6.
  unfold segmentBoxOnCanvas. fold sx sy sw sh.
  rewrite (canvas_dim_small sw) by lia. rewrite (canvas_dim_small sh) by lia.
  replace (rw src <=? 0) with false by (symmetry; apply Z.leb_gt; lia).
  replace (rh src <=? 0) with false by (symmetry; apply Z.leb_gt; lia).
  simpl orb. cbv iota.
  destruct (match modelReady, ortSession with
            | true, Some sess => modelInference stretch sess src sx sy sw sh sw sh
            | _, _ => None end); [reflexivity|].
  unfold fallbackMask.
  rewrite (to_int32_small sw), (to_int32_small sh) by lia.
  replace (sw =? 0) with false by (symmetry; apply Z.eqb_neq; lia).
  replace (sh =? 0) with false by (symmetry; apply Z.eqb_neq; lia).
  rewrite H3, H6. simpl.
  rewrite getImageData_crop_normal by lia. reflexivity.
Qed.


Lemma segmentBoxOnCanvas_returns stretch modelReady ortSession src box :
  crop_readable src box = true ->
  exists r, segmentBoxOnCanvas stretch modelReady ortSession src box = Ret r.
Proof.
  intros H. rewrite (segmentBoxOnCanvas_readable stretch modelReady ortSession src box H).
  destruct (match modelReady, ortSession with
            | true, Some sess => _ | _, _ => None end); eexists; reflexivity.
Qed.


(** A state that is not ready behaves as the fallback alone. *)
Lemma segmentBoxOnCanvas_not_ready stretch ortSession src box :
  segmentBoxOnCanvas stretch false ortSession src box =
  segmentBoxOnCanvas stretch false None src box.
Proof. reflexivity. Qed.



Definition blue_and_grey : Raster :=
  mkRaster 2 1 [0; 0; 200; 255; 10; 10; 10; 255] true.



(** C2: the fallback branch (taken whenever the model is not ready) returns
    the colour-threshold mask of the crop when the crop is readable, and the
    colour-threshold mask is computed per pixel: for every RGBA buffer and
    every pixel [(x, y)] of the [sw x sh] grid with channel values
    [(R, G, B)], its byte is [255] iff [B > 100 /\ B > R + 30 /\ B > G + 20],
    and [0] otherwise. *)
Theorem fallback_threshold_rule
    (stretch : list Z -> Z -> Z -> Z -> list Z) (ortSession : option Session)
    (src : Raster) (box : Box) :
  (crop_readable src box = true ->
   let sx := Z.max 0 (Qfloor (box_x box)) in
   let sy := Z.max 0 (Qfloor (box_y box)) in
   let sw := Z.max 1 (Qfloor (box_w box)) in
   let sh := Z.max 1 (Qfloor (box_h box)) in
   segmentBoxOnCanvas stretch false ortSession src box =
     Ret (mkSegResult (colorThreshold (crop_image src sx sy sw sh) sw sh) sw sh)) /\
  (forall (data : list Z) (sw sh x y : Z),
     1 <= sw -> 0 <= x < sw -> 0 <= y < sh ->
     let idx := (y * sw + x) * 4 in
     let R := read_u8 data idx in
     let G := read_u8 data (idx + 1) in
     let B := read_u8 data (idx + 2) in
     (read_u8 (colorThreshold data sw sh) (y * sw + x) = 255 <->
        B > 100 /\ B > R + 30 /\ B > G + 20) /\
     (read_u8 (colorThreshold data sw sh) (y * sw + x) = 0 <->
        ~ (B > 100 /\ B > R + 30 /\ B > G + 20))).
Proof.
  split.
  - intros Hr. apply (segmentBoxOnCanvas_readable stretch false ortSession src box Hr).
  - intros data sw sh x y Hsw Hx Hy idx R G B.
    rewrite read_colorThreshold by assumption. cbv zeta.
    fold idx. fold R G B. rewrite <- isBlue_spec.
    destruct (isBlue R G B); split; split; intros H;
      first [ reflexivity | discriminate | (intros H'; discriminate)
            | (exfalso; apply H; reflexivity) ].
Qed.

Lemma fallback_threshold_rule_witness :
  segmentBoxOnCanvas (fun _ _ _ _ => []) false None blue_and_grey (mkBox 0 0 2 1) =
    Ret (mkSegResult (colorThreshold (crop_image blue_and_grey 0 0 2 1) 2 1) 2 1) /\
  (read_u8 (colorThreshold [0; 0; 200; 255; 10; 10; 10; 255] 2 1) (0 * 2 + 0) = 255 <->
   200 > 100 /\ 200 > 0 + 30 /\ 200 > 0 + 20).
Proof.
  destruct (fallback_threshold_rule (fun _ _ _ _ => []) None blue_and_grey
              (mkBox 0 0 2 1)) as [Hs H].
  split; [apply Hs; reflexivity|].
  apply (H [0; 0; 200; 255; 10; 10; 10; 255] 2 1 0 0); lia.
Defined.

(** C3: on both branches, every result of [segmentBoxOnCanvas] is a Mask:
    its width is [max(1, floor(box.w))], its height [max(1, floor(box.h))],
    the mask has [width*height] bytes and each of them is [0] or [255]; and on
    a readable crop there is such a result. *)
Theorem segmentBoxOnCanvas_mask_invariant
    (stretch : list Z -> Z -> Z -> Z -> list Z) (modelReady : bool)
    (ortSession : option Session) (src : Raster) (box : Box) :
  (forall r, segmentBoxOnCanvas stretch modelReady ortSession src box = Ret r ->
    width r = Z.max 1 (Qfloor (box_w box)) /\
    height r = Z.max 1 (Qfloor (box_h box)) /\
    length (mask r) = Z.to_nat (width r * height r) /\
    Forall is_mask_byte (mask r)) /\
  (crop_readable src box = true ->
   exists r, segmentBoxOnCanvas stretch modelReady ortSession src box = Ret r).
Proof.
  split; [|apply segmentBoxOnCanvas_returns].
  intros r. unfold segmentBoxOnCanvas.
  set (sx := Z.max 0 (Qfloor (box_x box))).
  set (sy := Z.max 0 (Qfloor (box_y box))).
  set (sw := Z.max 1 (Qfloor (box_w box))).
  set (sh := Z.max 1 (Qfloor (box_h box))).
  assert (Hsw : 1 <= sw) by (unfold sw; lia).
  assert (Hsh : 1 <= sh) by (unfold sh; lia).
  destruct ((rw src <=? 0) || (rh src <=? 0)); [discriminate|].
  destruct (match modelReady, ortSession with
            | true, Some sess => modelInference stretch sess src sx sy sw sh
                                   (canvas_dim sw 300) (canvas_dim sh 150)
            | _, _ => None end) as [m|] eqn:E.
  - intros Hr. injection Hr as <-. simpl.
    split; [reflexivity | split; [reflexivity|]].
    destruct modelReady; [|discriminate].
    destruct ortSession as [sess|]; [|discriminate].
    unfold modelInference in E.
    destruct (_ || _ || _); [discriminate|].
    eapply tryInputNames_mask; eauto.
  - unfold fallbackMask.
    destruct (_ || _); [discriminate|].
    destruct (negb (rclean src)); [discriminate|].
    destruct (negb (u8_length_ok (sw * sh))); [discriminate|].
    intros Hr. injection Hr as <-. simpl.
    split; [reflexivity | split; [reflexivity|]]. split.
    + apply colorThreshold_length; lia.
    + apply colorThreshold_mask_bytes.
Qed.

Lemma segmentBoxOnCanvas_mask_invariant_witness :
  let r := mkSegResult [255; 0] 2 1 in
  (width r = Z.max 1 (Qfloor (box_w (mkBox 0 0 2 1))) /\
   height r = Z.max 1 (Qfloor (box_h (mkBox 0 0 2 1))) /\
   length (mask r) = Z.to_nat (width r * height r) /\
   Forall is_mask_byte (mask r)) /\
  exists r', segmentBoxOnCanvas (fun _ _ _ _ => []) false None blue_and_grey
               (mkBox 0 0 2 1) = Ret r'.
Proof.
  destruct (segmentBoxOnCanvas_mask_invariant (fun _ _ _ _ => []) false None
              blue_and_grey (mkBox 0 0 2 1)) as [Hinv Hex].
  split; [apply Hinv; vm_compute; reflexivity|].
  apply Hex. reflexivity.
Defined.

(** * C4, C6, C7, C8: [maskToGeoJSON] *)

Lemma binarizeMask_background m w h :
  Forall (fun v => v = 0) m -> Forall (fun v => v = 0) (binarizeMask m w h).
Proof.
  intros Hm. unfold binarizeMask, for_lt.
  apply (zfor_invariant (Forall (fun v => v = 0))).
  - intros i a Ha. apply Forall_store_u8; auto.
    rewrite (read_u8_Forall (fun v => v = 0) m i Hm eq_refl). reflexivity.
  - apply Forall_new_u8. reflexivity.
Qed.

Lemma firstForeground_background bin i :
  Forall (fun v => v = 0) bin -> firstForeground bin i = -1.
Proof.
  intros H. revert i. induction H as [|v rest Hv Hrest IH]; intros i; simpl; auto.
  subst v. simpl. apply IH.
Qed.

(** C7: on a mask whose entries are all [0], [maskToGeoJSON] returns a
    FeatureCollection with no feature. *)
Theorem maskToGeoJSON_all_background (m : list Z) (width height offsetX offsetY : Z) :
  Forall (fun v => v = 0) m ->
  maskToGeoJSON m width height offsetX offsetY =
    mkFeatureCollection "FeatureCollection" [].
Proof.
  intros Hm. unfold maskToGeoJSON.
  rewrite firstForeground_background by (apply binarizeMask_background; exact Hm).
  reflexivity.
Qed.

Lemma maskToGeoJSON_all_background_witness :
  maskToGeoJSON (repeat 0 9%nat) 3 3 7 7 =
    mkFeatureCollection "FeatureCollection" [].
Proof.
  apply maskToGeoJSON_all_background. repeat constructor.
Defined.

(** C8: on a [10 x 10] mask whose only foreground pixel is [(5, 5)],
    [maskToGeoJSON] returns one polygon whose ring is the single point
    [(5 + offsetX, 5 + offsetY)], for every offset. *)
Theorem maskToGeoJSON_single_pixel (offsetX offsetY : Z) :
  maskToGeoJSON single10 10 10 offsetX offsetY =
    mkFeatureCollection "FeatureCollection"
      [mkFeature "Feature"
         (mkGeometry "Polygon" [[(5 + offsetX, 5 + offsetY)]])].
Proof.
  vm_compute. reflexivity.
Qed.

(** The [4 x 4] square: the walk goes round its four pixels until it is back
    at the start with more than 20 points. *)
Lemma square4_rings :
  rings (maskToGeoJSON square4 4 4 0 0) =
    [[concat (repeat [(1, 1); (2, 1); (2, 2); (1, 2)] 6)]].
Proof.
  vm_compute. reflexivity.
Qed.

(** C4 (as the code does it): tracing the [4 x 4] mask whose foreground is
    the [2 x 2] square at rows and columns [1..2] with offset [(0, 0)] gives a
    single ring made of the square's four pixels in clockwise order
    [(1,1), (2,1), (2,2), (1,2)], repeated six times (24 points); the ring
    ends at [(1,2)], next to the start [(1,1)]. *)
Theorem maskToGeoJSON_square_ring :
  exists ring,
    rings (maskToGeoJSON square4 4 4 0 0) = [[ring]] /\
    ring = concat (repeat [(1, 1); (2, 1); (2, 2); (1, 2)] 6) /\
    length ring = 24%nat /\
    last ring (0, 0) = (1, 2).
Proof.
  eexists. split; [exact square4_rings|]. split; [reflexivity|].
  split; reflexivity.
Qed.

(** C4 as stated fails: the ring does not list each boundary pixel once. *)
Lemma maskToGeoJSON_square_ring_repeats :
  exists ring,
    rings (maskToGeoJSON square4 4 4 0 0) = [[ring]] /\ ~ NoDup ring.
Proof.
  eexists. split; [exact square4_rings|].
  simpl. intros H. inversion H as [|x l Hx Hl]. apply Hx.
  simpl. do 3 right. left. reflexivity.
Qed.

Lemma traceLoop_length bin width height start offsetX offsetY :
  forall fuel curr prevDir coords,
  (length (traceLoop bin width height start offsetX offsetY fuel curr prevDir coords)
     <= fuel + length coords)%nat.
Proof.
  induction fuel as [|fuel IH]; intros curr prevDir coords; [simpl; lia|].
  cbn [traceLoop].
  destruct (idxToXY width curr) as [cx cy].
  destruct (scanNeighbours bin width height cx cy prevDir eight) as [[ni di]|].
  - match goal with |- context [if ?b then _ else _] => destruct b end.
    + rewrite length_app. simpl. lia.
    + specialize (IH ni di (coords ++ [(cx + offsetX, cy + offsetY)])).
      rewrite length_app in IH. simpl in IH. lia.
  - rewrite length_app. simpl. lia.
Qed.

Lemma maskToGeoJSON_ring_bound m width height offsetX offsetY ring :
  In [ring] (rings (maskToGeoJSON m width height offsetX offsetY)) ->
  (length ring <= LOOP_GUARD)%nat.
Proof.
  unfold maskToGeoJSON. generalize LOOP_GUARD as fuel. intros fuel.
  destruct (firstForeground (binarizeMask m width height) 0 =? -1); simpl.
  - intros [].
  - intros [H | []]. injection H as <-.
    pose proof (traceLoop_length (binarizeMask m width height) width height
                  (firstForeground (binarizeMask m width height) 0)
                  offsetX offsetY fuel
                  (firstForeground (binarizeMask m width height) 0) 0 []) as H.
    simpl in H. lia.
Qed.

Definition zigzag_bin : list Z := [1; 0; 0; 1; 1; 0].

Lemma zigzag_binarize : binarizeMask zigzag23 2 3 = zigzag_bin.
Proof. vm_compute. reflexivity. Qed.

(** On [zigzag23] the walk leaves the start [(0,0)] for [(1,1)] and then
    alternates between [(1,1)] and [(0,2)] without coming back. *)
Lemma zigzag_steps n coords :
  traceLoop zigzag_bin 2 3 0 0 0 (S n) 0 0 coords =
    traceLoop zigzag_bin 2 3 0 0 0 n 3 5 (coords ++ [(0, 0)]) /\
  traceLoop zigzag_bin 2 3 0 0 0 (S n) 3 5 coords =
    traceLoop zigzag_bin 2 3 0 0 0 n 4 7 (coords ++ [(1, 1)]) /\
  traceLoop zigzag_bin 2 3 0 0 0 (S n) 4 7 coords =
    traceLoop zigzag_bin 2 3 0 0 0 n 3 3 (coords ++ [(0, 2)]) /\
  traceLoop zigzag_bin 2 3 0 0 0 (S n) 3 3 coords =
    traceLoop zigzag_bin 2 3 0 0 0 n 4 7 (coords ++ [(1, 1)]).
Proof. repeat split; reflexivity. Qed.

Lemma zigzag_cycle :
  forall n coords,
  length (traceLoop zigzag_bin 2 3 0 0 0 n 3 5 coords) = (n + length coords)%nat /\
  length (traceLoop zigzag_bin 2 3 0 0 0 n 4 7 coords) = (n + length coords)%nat /\
  length (traceLoop zigzag_bin 2 3 0 0 0 n 3 3 coords) = (n + length coords)%nat.
Proof.
  induction n as [|n IH]; intros coords; [simpl; auto|].
  destruct (zigzag_steps n coords) as [_ [E1 [E2 E3]]].
  rewrite E1, E2, E3.
  destruct (IH (coords ++ [(1, 1)])) as [_ [H2 _]].
  destruct (IH (coords ++ [(0, 2)])) as [_ [_ H3]].
  rewrite H2, H3, !length_app. simpl. lia.
Qed.

Lemma zigzag_ring_length :
  rings (maskToGeoJSON zigzag23 2 3 0 0) =
    [[traceLoop zigzag_bin 2 3 0 0 0 LOOP_GUARD 0 0 []]] /\
  length (traceLoop zigzag_bin 2 3 0 0 0 LOOP_GUARD 0 0 []) = LOOP_GUARD.
Proof.
  split.
  - unfold maskToGeoJSON. rewrite zigzag_binarize. reflexivity.
  - generalize LOOP_GUARD. intros [|n]; [reflexivity|].
    destruct (zigzag_steps n []) as [E _]. rewrite E.
    destruct (zigzag_cycle n ([] ++ [(0, 0)])) as [H _]. rewrite H. simpl. lia.
Qed.

(** C6 (as the code does it): the tracing loop of [maskToGeoJSON] always
    terminates.  It stops when no in-bounds foreground neighbour is found,
    when it is back at the start with more than 20 points, or after a fixed
    ceiling of [LOOP_GUARD] = 1,000,000 iterations, whatever the width and
    height; each iteration pushes one point, so every ring has at most
    1,000,000 points.  The ceiling is reached on small masks: on the [2 x 3]
    mask with foreground [(0,0)], [(1,1)], [(0,2)] the ring has exactly
    1,000,000 points. *)
Theorem maskToGeoJSON_trace_bounded :
  (forall m width height offsetX offsetY ring,
     In [ring] (rings (maskToGeoJSON m width height offsetX offsetY)) ->
     (length ring <= LOOP_GUARD)%nat) /\
  LOOP_GUARD = 1000000%nat /\
  (exists ring, rings (maskToGeoJSON zigzag23 2 3 0 0) = [[ring]] /\
                length ring = LOOP_GUARD).
Proof.
  split; [exact maskToGeoJSON_ring_bound|]. split; [reflexivity|].
  destruct zigzag_ring_length as [E L]. eexists. split; [exact E | exact L].
Qed.

Lemma maskToGeoJSON_trace_bounded_witness :
  (length [(5, 5)] <= LOOP_GUARD)%nat.
Proof.
  destruct maskToGeoJSON_trace_bounded as [H _].
  apply (H single10 10 10 0 0 [(5, 5)]).
  vm_compute. left. reflexivity.
Defined.

(** C6 as stated fails: the ceiling is not of the order of [width*height].
    Read as "at most [1000 * width * height] iterations", it is refuted by
    the [2 x 3] mask [zigzag23], whose trace runs 1,000,000 iterations. *)
Lemma maskToGeoJSON_ceiling_not_area :
  ~ (forall m width height ring,
       In [ring] (rings (maskToGeoJSON m width height 0 0)) ->
       (length ring <= 1000 * Z.to_nat (width * height))%nat).
Proof.
  intros H. destruct zigzag_ring_length as [E L].
  specialize (H zigzag23 2 3 (traceLoop zigzag_bin 2 3 0 0 0 LOOP_GUARD 0 0 [])).
  rewrite E, L in H. specialize (H (or_introl eq_refl)).
  apply Nat.leb_le in H. vm_compute in H. discriminate H.
Qed.

(** * C5: the input tensor of the model strategy *)

Lemma nth_store_f32 a i v k :
  0 <= i ->
  nth k (store_f32 a i v) 0%Q =
  if (k =? Z.to_nat i)%nat && (k <? length a)%nat then v else nth k a 0%Q.
Proof.
  intros Hi. unfold store_f32. destruct (Z.leb_spec 0 i); [|lia].
  apply nth_set_nth.
Qed.

Lemma store_f32_length a i v : length (store_f32 a i v) = length a.
Proof. unfold store_f32. destruct (0 <=? i); auto using set_nth_length. Qed.

(** [fillFloat] from pixel [p] on only writes indices [>= 3p]. *)
Lemma fillFloat_low :
  forall n d p a k, (length d <= n)%nat -> 0 <= p -> Z.of_nat k < 3 * p ->
  nth k (fillFloat d p a) 0%Q = nth k a 0%Q.
Proof.
  induction n as [|n IH]; intros d p a k Hlen Hp Hk.
  - destruct d; [reflexivity | simpl in Hlen; lia].
  - destruct d as [|r [|g [|b [|x rest]]]]; try reflexivity.
    simpl in Hlen. cbn [fillFloat].
    rewrite IH by lia.
    rewrite !nth_store_f32 by lia.
    cmp_cases; auto; lia.
Qed.

(** C5 (defect): [segmentBoxOnCanvas] declares its input tensor with shape
    [[1, 3, S, S]] (channel-first) but fills it pixel by pixel as
    [R, G, B, R, G, B, ...].  For every resized crop whose first pixel is
    [(0, 255, 0, 255)] and second pixel [(0, 0, 0, 255)], entry 1 of the
    tensor is the first pixel's green ([255/255]) whereas the channel-first
    layout puts the second pixel's red ([0/255]) there. *)
Theorem inputTensor_interleaved (rest : list Z) :
  let imgData := [0; 255; 0; 255; 0; 0; 0; 255] ++ rest in
  t_dims (buildInputTensor MODEL_SIZE imgData) =
    [1; 3; MODEL_SIZE; MODEL_SIZE] /\
  nth 1 (t_data (buildInputTensor MODEL_SIZE imgData)) 0%Q = Q_of_byte 255 /\
  nth 1 (channel_first imgData) 0%Q = Q_of_byte 0 /\
  Q_of_byte 255 <> Q_of_byte 0.
Proof.
  intros imgData. split; [reflexivity|]. split; [|split].
  - unfold buildInputTensor. cbn [t_data].
    assert (Hz : (2 < length (repeat 0%Q (Z.to_nat (MODEL_SIZE * MODEL_SIZE * 3))))%nat).
    { rewrite repeat_length. apply Nat2Z.inj_lt.
      rewrite Z2Nat.id; unfold MODEL_SIZE; lia. }
    revert Hz. generalize (repeat 0%Q (Z.to_nat (MODEL_SIZE * MODEL_SIZE * 3))).
    intros zeros Hz.
    unfold imgData. cbn [app fillFloat].
    rewrite (fillFloat_low (length ([0; 0; 0; 255] ++ rest))) by (simpl; lia).
    rewrite !nth_store_f32 by lia. rewrite !store_f32_length.
    cmp_cases; auto; lia.
  - reflexivity.
  - discriminate.
Qed.

(** * Further properties of the module *)

(** ** [maskToImageData] *)





(** ** [initModel] and the module state *)

Lemma initModel_not_ready ortLoaded create modelUrl st :
  (forall url s, modelUrl = Some url -> url <> EmptyString -> ortLoaded = true ->
     create url <> Ret s) ->
  modelReady (initModel ortLoaded create modelUrl st) = false.
Proof.
  intros H. unfold initModel.
  destruct modelUrl as [[|c u]|]; try reflexivity.
  destruct ortLoaded; try reflexivity. simpl.
  destruct (create (String c u)) as [|s] eqn:E; try reflexivity.
  exfalso. apply (H (String c u) s); auto; discriminate.
Qed.

(** X2: after [initModel], [modelReady] is true with session [s] exactly when
    a non-empty URL was given, [window.ort] is loaded and the session creation
    returned [s]; a ready state always holds a session; and a state that is not
    ready keeps the previous session (no URL, or no [ort]) or holds none (the
    creation threw). *)
Theorem initModel_ready (ortLoaded : bool) (create : string -> Exc Session)
    (modelUrl : option string) (st : ModuleState) :
  let st' := initModel ortLoaded create modelUrl st in
  (forall s, modelReady st' = true /\ ortSession st' = Some s <->
     exists url, modelUrl = Some url /\ url <> EmptyString /\
       ortLoaded = true /\ create url = Ret s) /\
  (modelReady st' = true -> ortSession st' <> None) /\
  (modelReady st' = false ->
     ortSession st' = ortSession st \/ ortSession st' = None).
Proof.
  intros st'. subst st'. unfold initModel.
  destruct modelUrl as [[|c u]|].
  - simpl. split; [|split; [discriminate | auto]].
    intros s. split; [intros [H _]; discriminate|].
    intros [url [E [Hne _]]]. injection E as <-. contradiction.
  - destruct ortLoaded; simpl.
    + destruct (create (String c u)) as [|s0] eqn:E; simpl.
      * split; [|split; [discriminate | auto]].
        intros s. split; [intros [H _]; discriminate|].
        intros [url [Eu [_ [_ Ec]]]]. injection Eu as <-. congruence.
      * split; [|split; [discriminate | discriminate]].
        intros s. split.
        -- intros [_ Es]. injection Es as <-.
           exists (String c u). repeat split; auto; discriminate.
        -- intros [url [Eu [_ [_ Ec]]]]. injection Eu as <-.
           rewrite E in Ec. injection Ec as <-. auto.
    + split; [|split; [discriminate | auto]].
      intros s. split; [intros [H _]; discriminate|].
      intros [url [_ [_ [H _]]]]. discriminate.
  - simpl. split; [|split; [discriminate | auto]].
    intros s. split; [intros [H _]; discriminate|].
    intros [url [E _]]. discriminate.
Qed.

(** X3: when [initModel] does not load a session (no URL, an empty URL, no
    [window.ort], or a creation that throws), the next [segmentBoxOnCanvas]
    behaves as the fallback alone, whatever session an earlier [initModel]
    had loaded: on a readable crop it returns the colour-threshold mask of
    the crop. *)
Theorem initModel_then_fallback (stretch : list Z -> Z -> Z -> Z -> list Z)
    (ortLoaded : bool) (create : string -> Exc Session)
    (modelUrl : option string) (st : ModuleState) (src : Raster) (box : Box) :
  (forall url s, modelUrl = Some url -> url <> EmptyString -> ortLoaded = true ->
     create url <> Ret s) ->
  let st' := initModel ortLoaded create modelUrl st in
  segmentBoxOnCanvas stretch (modelReady st') (ortSession st') src box =
    segmentBoxOnCanvas stretch false None src box /\
  (crop_readable src box = true ->
   let sx := Z.max 0 (Qfloor (box_x box)) in
   let sy := Z.max 0 (Qfloor (box_y box)) in
   let sw := Z.max 1 (Qfloor (box_w box)) in
   let sh := Z.max 1 (Qfloor (box_h box)) in
   segmentBoxOnCanvas stretch (modelReady st') (ortSession st') src box =
     Ret (mkSegResult (colorThreshold (crop_image src sx sy sw sh) sw sh) sw sh)).
Proof.
  intros H st'. subst st'.
  rewrite (initModel_not_ready ortLoaded create modelUrl st H).
  split; [apply segmentBoxOnCanvas_not_ready|].
  intros Hr. apply (segmentBoxOnCanvas_readable stretch false _ src box Hr).
Qed.

Lemma initModel_then_fallback_witness :
  let st' := initModel true (fun _ => Throw) (Some "mobile_sam.onnx"%string)
               (mkModuleState (Some (mkSession None (fun _ _ => Throw))) true) in
  segmentBoxOnCanvas (fun _ _ _ _ => []) (modelReady st') (ortSession st')
    blue_and_grey (mkBox 0 0 2 1) =
    segmentBoxOnCanvas (fun _ _ _ _ => []) false None blue_and_grey (mkBox 0 0 2 1) /\
  segmentBoxOnCanvas (fun _ _ _ _ => []) (modelReady st') (ortSession st')
    blue_and_grey (mkBox 0 0 2 1) = Ret (mkSegResult [255; 0] 2 1).
Proof.
  destruct (initModel_then_fallback (fun _ _ _ _ => []) true (fun _ => Throw)
              (Some "mobile_sam.onnx"%string)
              (mkModuleState (Some (mkSession None (fun _ _ => Throw))) true)
              blue_and_grey (mkBox 0 0 2 1)) as [Heq Hth];
    [intros url s _ _ _; discriminate|].
  split; [exact Heq|].
  rewrite Hth by reflexivity. vm_compute. reflexivity.
Defined.

(** ** The input-name loop *)

(** X4: the loop over input names returns the mask of the first name whose
    attempt succeeds, after every earlier attempt threw (later names are not
    tried); it falls through ([None]) exactly when every attempt throws. *)
Theorem tryInputNames_first_success (sess : Session) (t : Tensor) (sw sh : Z)
    (names : list string) :
  (forall m, tryInputNames sess t sw sh names = Some m <->
     exists pre name post, names = pre ++ name :: post /\
       Forall (fun n => tryInputName sess t sw sh n = Throw) pre /\
       tryInputName sess t sw sh name = Ret m) /\
  (tryInputNames sess t sw sh names = None <->
     Forall (fun n => tryInputName sess t sw sh n = Throw) names).
Proof.
  induction names as [|n rest [IHs IHn]].
  - split.
    + intros m. simpl. split; [discriminate|].
      intros [pre [name [post [E _]]]]. destruct pre; discriminate.
    + simpl. split; auto.
  - simpl. destruct (tryInputName sess t sw sh n) as [|m0] eqn:En.
    + split.
      * intros m. rewrite IHs. split.
        -- intros [pre [name [post [E [Hpre Hn]]]]].
           exists (n :: pre), name, post. subst rest.
           split; [reflexivity | split; [constructor; assumption | assumption]].
        -- intros [pre [name [post [E [Hpre Hn]]]]].
           destruct pre as [|p pre].
           ++ injection E as <- <-. congruence.
           ++ injection E as <- ->. inversion Hpre; subst.
              exists pre, name, post. auto.
      * rewrite IHn. split.
        -- intros H. constructor; assumption.
        -- intros H. inversion H; assumption.
    + split.
      * intros m. split.
        -- intros Hm. injection Hm as <-.
           exists [], n, rest. auto.
        -- intros [pre [name [post [E [Hpre Hn]]]]].
           destruct pre as [|p pre].
           ++ injection E as <- <-. congruence.
           ++ injection E as <- _. inversion Hpre; congruence.
      * split; [discriminate|].
        intros H. inversion H; congruence.
Qed.

(** X5: a session that declares an empty [inputNames] array never runs the
    model, because [[] || defaults] keeps the (truthy) empty array: even a
    ready model behaves as the fallback alone, which on a readable crop
    returns the colour-threshold mask. *)
Theorem segmentBoxOnCanvas_empty_inputNames
    (stretch : list Z -> Z -> Z -> Z -> list Z) (sess : Session)
    (src : Raster) (box : Box) :
  inputNames sess = Some [] ->
  segmentBoxOnCanvas stretch true (Some sess) src box =
    segmentBoxOnCanvas stretch false None src box /\
  (crop_readable src box = true ->
   let sx := Z.max 0 (Qfloor (box_x box)) in
   let sy := Z.max 0 (Qfloor (box_y box)) in
   let sw := Z.max 1 (Qfloor (box_w box)) in
   let sh := Z.max 1 (Qfloor (box_h box)) in
   segmentBoxOnCanvas stretch true (Some sess) src box =
     Ret (mkSegResult (colorThreshold (crop_image src sx sy sw sh) sw sh) sw sh)).
Proof.
  intros H.
  assert (Hm : forall sx sy sw sh cw ch,
             modelInference stretch sess src sx sy sw sh cw ch = None).
  { intros. unfold modelInference. rewrite H.
    destruct (_ || _ || _); reflexivity. }
  split.
  - unfold segmentBoxOnCanvas. rewrite !Hm. reflexivity.
  - intros Hr. rewrite (segmentBoxOnCanvas_readable stretch true (Some sess) src box Hr).
    rewrite Hm. reflexivity.
Qed.

Lemma segmentBoxOnCanvas_empty_inputNames_witness :
  let sess := mkSession (Some [])
    (fun _ _ => Ret [("masks"%string, mkTensor [1; 1]%Q [1; 1; 1; 2])]) in
  segmentBoxOnCanvas (fun _ _ _ _ => []) true (Some sess) blue_and_grey (mkBox 0 0 2 1) =
    segmentBoxOnCanvas (fun _ _ _ _ => []) false None blue_and_grey (mkBox 0 0 2 1) /\
  segmentBoxOnCanvas (fun _ _ _ _ => []) true (Some sess) blue_and_grey (mkBox 0 0 2 1) =
    Ret (mkSegResult [255; 0] 2 1).
Proof.
  intros sess.
  destruct (segmentBoxOnCanvas_empty_inputNames (fun _ _ _ _ => []) sess
              blue_and_grey (mkBox 0 0 2 1)) as [Heq Hth]; [reflexivity|].
  split; [exact Heq|].
  rewrite Hth by reflexivity. vm_compute. reflexivity.
Defined.

(** ** [resampleMaskTo] at integer scale factors *)

(** X6: resampling a [w x h] mask by integer factors [k, l >= 1] replicates
    each source pixel into a [k x l] block ([out[yy*kw + xx] = mask[(yy/l)*w +
    xx/k]]), and shrinking a [(k*tw) x (l*th)] mask to [tw x th] keeps the
    top-left pixel of each block ([out[yy*tw + xx] = mask[(yy*l)*(k*tw) +
    xx*k]]). *)
Theorem resampleMaskTo_integer_factors (m : list Z) (k l : Z) :
  Forall is_byte m -> 1 <= k -> 1 <= l ->
  (forall w h xx yy, 1 <= w -> 1 <= h -> 0 <= xx < k * w -> 0 <= yy < l * h ->
     read_u8 (resampleMaskTo m w h (k * w) (l * h)) (yy * (k * w) + xx) =
     read_u8 m ((yy / l) * w + xx / k)) /\
  (forall tw th xx yy, 1 <= tw -> 1 <= th -> 0 <= xx < tw -> 0 <= yy < th ->
     read_u8 (resampleMaskTo m (k * tw) (l * th) tw th) (yy * tw + xx) =
     read_u8 m ((yy * l) * (k * tw) + xx * k)).
Proof.
  intros Hb Hk Hl. split.
  - intros w h xx yy Hw Hh Hxx Hyy.
    rewrite read_resampleMaskTo by nia. unfold src_coord.
    rewrite !Z.div_mul_cancel_r by lia.
    apply clamp_byte_id, read_u8_byte, Hb.
  - intros tw th xx yy Htw Hth Hxx Hyy.
    rewrite read_resampleMaskTo by nia. unfold src_coord.
    replace (xx * (k * tw)) with (xx * k * tw) by ring.
    replace (yy * (l * th)) with (yy * l * th) by ring.
    rewrite !Z.div_mul by lia.
    apply clamp_byte_id, read_u8_byte, Hb.
Qed.

Lemma resampleMaskTo_integer_factors_witness :
  read_u8 (resampleMaskTo [0; 255; 255; 0] 2 2 (2 * 2) (3 * 2)) (4 * (2 * 2) + 3) =
    read_u8 [0; 255; 255; 0] ((4 / 3) * 2 + 3 / 2) /\
  read_u8 (resampleMaskTo [0; 255; 255; 0] (2 * 1) (2 * 1) 1 1) (0 * 1 + 0) =
    read_u8 [0; 255; 255; 0] ((0 * 2) * (2 * 1) + 0 * 2).
Proof.
  destruct (resampleMaskTo_integer_factors [0; 255; 255; 0] 2 3) as [Hup _];
    [repeat constructor; unfold is_byte; lia | lia | lia |].
  destruct (resampleMaskTo_integer_factors [0; 255; 255; 0] 2 2) as [_ Hdown];
    [repeat constructor; unfold is_byte; lia | lia | lia |].
  split; [apply Hup | apply Hdown]; lia.
Defined.

(** ** [maskToGeoJSON]: the traced ring *)

Lemma nth_binarizeMask m width height k :
  nth k (binarizeMask m width height) 0 =
  if Z.of_nat k <? width * height
  then (if read_u8 m (Z.of_nat k) =? 0 then 0 else 1) else 0.
Proof.
  unfold binarizeMask, for_lt. rewrite Z.sub_0_r.
  pose proof (nth_zfor_store 0 (fun i => if read_u8 m i =? 0 then 0 else 1)
                (Z.to_nat (width * height)) 0 (new_u8 (width * height)) k) as H.
  simpl in H. rewrite !Z.sub_0_r in H. rewrite H. clear H.
  unfold new_u8. rewrite repeat_length.
  destruct (Z.leb_spec 0 (width * height)).
  - rewrite Z2Nat.id by lia.
    destruct (Z.ltb_spec (Z.of_nat k) (width * height)).
    + replace (0 <=? Z.of_nat k) with true by (symmetry; apply Z.leb_le; lia).
      replace (k <? Z.to_nat (width * height))%nat with true
        by (symmetry; apply Nat.ltb_lt; lia).
      simpl. destruct (read_u8 m (Z.of_nat k) =? 0); reflexivity.
    + replace (Z.of_nat k <? width * height) with false
        by (symmetry; apply Z.ltb_ge; lia).
      rewrite andb_false_r. simpl. apply nth_repeat.
  - replace (Z.to_nat (width * height)) with O by lia. simpl.
    destruct (Z.ltb_spec (Z.of_nat k) (width * height)); [lia|].
    rewrite andb_false_r. destruct k; reflexivity.
Qed.

Lemma read_binarizeMask m width height i :
  0 <= i -> read_u8 (binarizeMask m width height) i =
  if i <? width * height then (if read_u8 m i =? 0 then 0 else 1) else 0.
Proof.
  intros Hi. rewrite read_u8_nth, nth_binarizeMask, Z2Nat.id by lia. reflexivity.
Qed.

Lemma firstForeground_none bin i :
  0 <= i -> firstForeground bin i = -1 -> forall k, nth k bin 0 = 0.
Proof.
  revert i. induction bin as [|b rest IH]; intros i Hi H k; simpl in *.
  - destruct k; reflexivity.
  - destruct (b =? 0) eqn:Eb; simpl in H; [|lia].
    destruct k; [apply Z.eqb_eq; exact Eb|].
    apply (IH (Z.succ i)); [lia | exact H].
Qed.

Lemma firstForeground_some bin i :
  0 <= i -> firstForeground bin i <> -1 ->
  let r := firstForeground bin i in
  i <= r /\ (Z.to_nat (r - i) < length bin)%nat /\
  nth (Z.to_nat (r - i)) bin 0 <> 0 /\
  (forall j, (j < Z.to_nat (r - i))%nat -> nth j bin 0 = 0).
Proof.
  revert i. induction bin as [|b rest IH]; intros i Hi H; simpl in *.
  - contradiction.
  - destruct (b =? 0) eqn:Eb; simpl in *.
    + destruct (IH (Z.succ i)) as [H1 [H2 [H3 H4]]]; [lia | exact H |].
      replace (Z.to_nat (firstForeground rest (Z.succ i) - i))
        with (S (Z.to_nat (firstForeground rest (Z.succ i) - Z.succ i))) by lia.
      split; [lia | split; [simpl; lia | split; [exact H3|]]].
      intros [|j] Hj; [apply Z.eqb_eq; exact Eb|]. apply H4. lia.
    + rewrite Z.sub_diag. simpl.
      split; [lia | split; [lia | split; [apply Z.eqb_neq; exact Eb|]]].
      intros j Hj. lia.
Qed.

Lemma traceLoop_step bin width height start offsetX offsetY fuel curr prevDir coords :
  traceLoop bin width height start offsetX offsetY (S fuel) curr prevDir coords =
  let (cx, cy) := idxToXY width curr in
  let coords := coords ++ [(cx + offsetX, cy + offsetY)] in
  match scanNeighbours bin width height cx cy prevDir eight with
  | None => coords
  | Some (ni, di) =>
      if (ni =? start) && (20 <? length coords)%nat then coords
      else traceLoop bin width height start offsetX offsetY fuel ni di coords
  end.
Proof. reflexivity. Qed.

Lemma traceLoop_prefix bin width height start offsetX offsetY fuel curr prevDir coords :
  exists rest,
  traceLoop bin width height start offsetX offsetY (S fuel) curr prevDir coords =
  coords ++ (curr mod width + offsetX, curr / width + offsetY) :: rest.
Proof.
  revert curr prevDir coords.
  induction fuel as [|fuel IH]; intros curr prevDir coords;
    rewrite traceLoop_step; unfold idxToXY.
  - destruct (scanNeighbours _ _ _ _ _ _ _) as [[ni di]|];
      [destruct (_ && _)|]; exists []; reflexivity.
  - destruct (scanNeighbours _ _ _ _ _ _ _) as [[ni di]|];
      [destruct (_ && _)|]; try (exists []; reflexivity).
    destruct (IH ni di (coords ++ [(curr mod width + offsetX, curr / width + offsetY)]))
      as [rest E].
    rewrite E, <- app_assoc. simpl.
    eexists. reflexivity.
Qed.

Lemma LOOP_GUARD_pos : (0 <? LOOP_GUARD)%nat = true.
Proof. vm_compute. reflexivity. Qed.

(** X7: for [width >= 1] and [height >= 0], [maskToGeoJSON] returns no
    feature exactly when the first [width*height] entries of the mask are all
    [0] (entries past [width*height] are ignored); otherwise it returns one
    Polygon feature whose single ring starts at the first foreground pixel
    [i0], shifted by the offset. *)
Theorem maskToGeoJSON_first_foreground (m : list Z) (width height offsetX offsetY : Z) :
  1 <= width -> 0 <= height ->
  (features (maskToGeoJSON m width height offsetX offsetY) = [] <->
     forall i, 0 <= i < width * height -> read_u8 m i = 0) /\
  (forall i0, 0 <= i0 < width * height -> read_u8 m i0 <> 0 ->
     (forall j, 0 <= j < i0 -> read_u8 m j = 0) ->
     exists rest, maskToGeoJSON m width height offsetX offsetY =
       mkFeatureCollection "FeatureCollection"
         [mkFeature "Feature" (mkGeometry "Polygon"
            [(i0 mod width + offsetX, i0 / width + offsetY) :: rest])]).
Proof.
  intros Hw Hh.
  assert (Hlen : length (binarizeMask m width height) = Z.to_nat (width * height)).
  { unfold binarizeMask, for_lt.
    apply (zfor_invariant (fun d => length d = Z.to_nat (width * height))).
    - intros j d Hd. rewrite store_u8_length. exact Hd.
    - apply new_u8_length. nia. }
  split.
  - unfold maskToGeoJSON. generalize LOOP_GUARD as fuel. intros fuel.
    destruct (Z.eqb_spec (firstForeground (binarizeMask m width height) 0) (-1))
      as [E | E]; simpl.
    + split; [|reflexivity]. intros _ i Hi.
      pose proof (firstForeground_none _ 0 ltac:(lia) E (Z.to_nat i)) as Hz.
      rewrite nth_binarizeMask, Z2Nat.id in Hz by lia.
      destruct (Z.ltb_spec i (width * height)); [|lia].
      destruct (Z.eqb_spec (read_u8 m i) 0); [assumption | discriminate].
    + split; [discriminate|]. intros Hall. exfalso.
      destruct (firstForeground_some _ 0 ltac:(lia) E) as [H1 [H2 [H3 _]]].
      rewrite nth_binarizeMask, Z2Nat.id in H3 by lia.
      rewrite Hlen in H2.
      rewrite Hall in H3 by lia. simpl in H3.
      destruct (_ <? _); apply H3; reflexivity.
  - intros i0 Hi0 Hfg Hbefore.
    assert (Hstart : firstForeground (binarizeMask m width height) 0 = i0).
    { destruct (Z.eqb_spec (firstForeground (binarizeMask m width height) 0) (-1))
        as [E | E].
      - exfalso. pose proof (firstForeground_none _ 0 ltac:(lia) E (Z.to_nat i0)) as Hz.
        rewrite nth_binarizeMask, Z2Nat.id in Hz by lia.
        destruct (Z.ltb_spec i0 (width * height)); [|lia].
        destruct (Z.eqb_spec (read_u8 m i0) 0); [contradiction | discriminate].
      - destruct (firstForeground_some _ 0 ltac:(lia) E) as [H1 [H2 [H3 H4]]].
        set (r := firstForeground (binarizeMask m width height) 0) in *.
        rewrite Z.sub_0_r in *.
        rewrite nth_binarizeMask, Z2Nat.id in H3 by lia.
        destruct (Z.lt_trichotomy r i0) as [Hlt | [Heq | Hgt]]; [| exact Heq |].
        + exfalso. rewrite Hbefore in H3 by lia. simpl in H3.
          destruct (_ <? _); apply H3; reflexivity.
        + exfalso. specialize (H4 (Z.to_nat i0) ltac:(lia)).
          rewrite nth_binarizeMask, Z2Nat.id in H4 by lia.
          destruct (Z.ltb_spec i0 (width * height)); [|lia].
          destruct (Z.eqb_spec (read_u8 m i0) 0); [contradiction | discriminate]. }
    unfold maskToGeoJSON. rewrite Hstart.
    destruct (Z.eqb_spec i0 (-1)); [lia|].
    pose proof LOOP_GUARD_pos as Hg. revert Hg.
    generalize LOOP_GUARD as fuel. intros [|fuel] Hg; [discriminate|].
    destruct (traceLoop_prefix (binarizeMask m width height) width height i0
                offsetX offsetY fuel i0 0 []) as [rest E].
    rewrite E. exists rest. reflexivity.
Qed.

Lemma maskToGeoJSON_first_foreground_witness :
  exists rest, maskToGeoJSON [0; 0; 255; 0] 2 2 5 7 =
    mkFeatureCollection "FeatureCollection"
      [mkFeature "Feature" (mkGeometry "Polygon" [(2 mod 2 + 5, 2 / 2 + 7) :: rest])].
Proof.
  destruct (maskToGeoJSON_first_foreground [0; 0; 255; 0] 2 2 5 7) as [_ H];
    [lia | lia |].
  apply H; [lia | discriminate |].
  intros j Hj. assert (j = 0 \/ j = 1) as [-> | ->] by lia; reflexivity.
Defined.

Lemma scanNeighbours_some bin width height cx cy prevDir ds ni di :
  scanNeighbours bin width height cx cy prevDir ds = Some (ni, di) ->
  exists dx dy, In (dx, dy) directions /\
    0 <= cx + dx < width /\ 0 <= cy + dy < height /\
    ni = (cy + dy) * width + (cx + dx) /\ read_u8 bin ni <> 0.
Proof.
  induction ds as [|d ds IH]; cbn [scanNeighbours]; [discriminate|].
  destruct (nth (Z.to_nat ((prevDir + 7 + d) mod 8)) directions (0, 0))
    as [dx dy] eqn:Ed.
  match goal with |- context [if ?b then _ else _] => destruct b eqn:Eb end;
    [|exact IH].
  intros H. injection H as <- <-.
  rewrite !andb_true_iff in Eb.
  destruct Eb as [[[[E1 E2] E3] E4] E5].
  apply Z.leb_le in E1. apply Z.ltb_lt in E2.
  apply Z.leb_le in E3. apply Z.ltb_lt in E4.
  apply negb_true_iff, Z.eqb_neq in E5.
  exists dx, dy. split; [|split; [lia | split; [lia | split; [reflexivity | exact E5]]]].
  rewrite <- Ed. apply nth_In.
  pose proof (Z.mod_pos_bound (prevDir + 7 + d) 8 ltac:(lia)). simpl. lia.
Qed.

Lemma idxToXY_row width x y :
  0 <= x < width -> idxToXY width (y * width + x) = (x, y).
Proof.
  intros Hx. unfold idxToXY.
  destruct (div_mod_row (y * width + x) width y) as [E1 E2]; [lia | lia |].
  rewrite E1, E2. f_equal. lia.
Qed.

Lemma maskToGeoJSON_ring_trace m width height offsetX offsetY ring :
  In [ring] (rings (maskToGeoJSON m width height offsetX offsetY)) ->
  let bin := binarizeMask m width height in
  let start := firstForeground bin 0 in
  start <> -1 /\
  exists fuel, ring = traceLoop bin width height start offsetX offsetY fuel start 0 [].
Proof.
  unfold maskToGeoJSON. generalize LOOP_GUARD as fuel. intros fuel.
  destruct (Z.eqb_spec (firstForeground (binarizeMask m width height) 0) (-1))
    as [E | E]; simpl.
  - intros [].
  - intros [H | []]. injection H as <-. split; [exact E|]. exists fuel. reflexivity.
Qed.

Section TraceInvariants.

Variables (bin : list Z) (width height start offsetX offsetY : Z).
Hypothesis width_pos : 1 <= width.

(** A foreground pixel index of the [width x height] grid. *)
Definition fg_index (i : Z) : Prop :=
  exists x y, i = y * width + x /\ 0 <= x < width /\ 0 <= y < height /\
    read_u8 bin i <> 0.

Definition fg_point (p : Z * Z) : Prop :=
  0 <= fst p - offsetX < width /\ 0 <= snd p - offsetY < height /\
  read_u8 bin ((snd p - offsetY) * width + (fst p - offsetX)) <> 0.

Lemma traceLoop_fg_points :
  forall fuel curr prevDir coords,
  Forall fg_point coords -> fg_index curr ->
  Forall fg_point
    (traceLoop bin width height start offsetX offsetY fuel curr prevDir coords).
Proof.
  induction fuel as [|fuel IH]; intros curr prevDir coords Hc Hcurr; [exact Hc|].
  rewrite traceLoop_step.
  destruct Hcurr as [x [y [-> [Hx [Hy Hb]]]]].
  rewrite idxToXY_row by lia.
  assert (Hc' : Forall fg_point (coords ++ [(x + offsetX, y + offsetY)])).
  { apply Forall_app. split; [exact Hc|]. constructor; [|constructor].
    unfold fg_point. simpl.
    replace (x + offsetX - offsetX) with x by ring.
    replace (y + offsetY - offsetY) with y by ring. auto. }
  destruct (scanNeighbours bin width height x y prevDir eight) as [[ni di]|] eqn:Es;
    [|exact Hc'].
  cbv beta iota zeta.
  match goal with |- context [if ?b then _ else _] => destruct b end; [exact Hc'|].
  apply IH; [exact Hc'|].
  destruct (scanNeighbours_some _ _ _ _ _ _ _ _ _ Es)
    as [dx [dy [_ [Hnx [Hny [Eni Hni]]]]]].
  exists (x + dx), (y + dy). auto.
Qed.

Definition pt (i : Z) : Z * Z :=
  (i mod width + offsetX, i / width + offsetY).

Definition adjacent (a b : Z * Z) : Prop :=
  In (fst b - fst a, snd b - snd a) directions.

Lemma traceLoop_adjacent :
  forall fuel curr prevDir coords,
  (forall k, (S k < length coords)%nat ->
     adjacent (nth k coords (0, 0)) (nth (S k) coords (0, 0))) ->
  (forall k, S k = length coords -> adjacent (nth k coords (0, 0)) (pt curr)) ->
  let ring := traceLoop bin width height start offsetX offsetY fuel curr prevDir coords in
  forall k, (S k < length ring)%nat ->
    adjacent (nth k ring (0, 0)) (nth (S k) ring (0, 0)).
Proof.
  induction fuel as [|fuel IH]; intros curr prevDir coords H1 H2; [exact H1|].
  cbv zeta. rewrite traceLoop_step.
  destruct (idxToXY width curr) as [cx cy] eqn:Exy.
  assert (Hpt : pt curr = (cx + offsetX, cy + offsetY)).
  { unfold pt, idxToXY in *. injection Exy as <- <-. reflexivity. }
  set (coords' := coords ++ [(cx + offsetX, cy + offsetY)]).
  assert (Hlen : length coords' = S (length coords)).
  { unfold coords'. rewrite length_app. simpl. lia. }
  assert (H1' : forall k, (S k < length coords')%nat ->
            adjacent (nth k coords' (0, 0)) (nth (S k) coords' (0, 0))).
  { intros k Hk. rewrite Hlen in Hk. unfold coords'.
    rewrite app_nth1 by lia.
    destruct (Nat.ltb_spec (S k) (length coords)).
    - rewrite app_nth1 by lia. apply H1. exact H.
    - rewrite app_nth2 by lia. replace (S k - length coords)%nat with O by lia.
      simpl. rewrite <- Hpt. apply H2. lia. }
  destruct (scanNeighbours bin width height cx cy prevDir eight) as [[ni di]|] eqn:Es;
    [|exact H1'].
  cbv beta iota zeta.
  match goal with |- context [if ?b then _ else _] => destruct b end; [exact H1'|].
  apply IH; [exact H1'|].
  intros k Hk. rewrite Hlen in Hk. injection Hk as Hk. unfold coords'.
  rewrite app_nth2 by lia. replace (k - length coords)%nat with O by lia. simpl.
  destruct (scanNeighbours_some _ _ _ _ _ _ _ _ _ Es)
    as [dx [dy [Hd [Hnx [Hny [Eni _]]]]]].
  unfold adjacent, pt. subst ni.
  destruct (div_mod_row ((cy + dy) * width + (cx + dx)) width (cy + dy))
    as [E1 E2]; [lia | lia |].
  rewrite E1, E2. simpl.
  replace ((cy + dy) * width + (cx + dx) - (cy + dy) * width + offsetX
             - (cx + offsetX)) with dx by ring.
  replace (cy + dy + offsetY - (cy + offsetY)) with dy by ring.
  exact Hd.
Qed.

End TraceInvariants.

Lemma firstForeground_fg_index m width height :
  1 <= width ->
  let bin := binarizeMask m width height in
  firstForeground bin 0 <> -1 ->
  fg_index bin width height (firstForeground bin 0) /\
  firstForeground bin 0 < width * height.
Proof.
  intros Hw bin E.
  destruct (firstForeground_some bin 0 ltac:(lia) E) as [H1 [H2 [H3 _]]].
  set (r := firstForeground bin 0) in *. rewrite Z.sub_0_r in *.
  assert (Hlen : length bin = Z.to_nat (width * height)).
  { unfold bin, binarizeMask, for_lt.
    apply (zfor_invariant (fun d => length d = Z.to_nat (width * height))).
    - intros j d Hd. rewrite store_u8_length. exact Hd.
    - unfold new_u8. apply repeat_length. }
  rewrite Hlen in H2.
  assert (Hr : r < width * height) by lia.
  split; [|exact Hr].
  exists (r mod width), (r / width).
  pose proof (Z.mod_pos_bound r width ltac:(lia)).
  split; [rewrite (Z.mul_comm (r / width)); apply Z.div_mod; lia|].
  split; [lia|]. split.
  - split; [apply Z.div_pos; lia|]. apply Z.div_lt_upper_bound; lia.
  - rewrite read_u8_nth by lia. exact H3.
Qed.

(** X8: for [width >= 1], every point [(x, y)] of the traced ring is a
    foreground pixel of the mask shifted by the offset: [(x - offsetX, y -
    offsetY)] lies inside the [width x height] grid and the mask entry there is
    non-zero. *)
Theorem maskToGeoJSON_ring_on_foreground (m : list Z)
    (width height offsetX offsetY : Z) (ring : list (Z * Z)) :
  1 <= width ->
  In [ring] (rings (maskToGeoJSON m width height offsetX offsetY)) ->
  forall x y, In (x, y) ring ->
    0 <= x - offsetX < width /\ 0 <= y - offsetY < height /\
    read_u8 m ((y - offsetY) * width + (x - offsetX)) <> 0.
Proof.
  intros Hw Hin x y Hxy.
  destruct (maskToGeoJSON_ring_trace _ _ _ _ _ _ Hin) as [E [fuel ->]].
  destruct (firstForeground_fg_index m width height Hw E) as [Hs _].
  pose proof (traceLoop_fg_points (binarizeMask m width height) width height
                (firstForeground (binarizeMask m width height) 0) offsetX offsetY
                fuel _ 0 [] (Forall_nil _) Hs) as HF.
  rewrite Forall_forall in HF. destruct (HF _ Hxy) as [Hx [Hy Hb]]. simpl in *.
  split; [exact Hx | split; [exact Hy|]].
  rewrite read_binarizeMask in Hb by nia.
  destruct (_ <? _); [|contradiction].
  destruct (Z.eqb_spec (read_u8 m ((y - offsetY) * width + (x - offsetX))) 0);
    [contradiction | assumption].
Qed.

Lemma maskToGeoJSON_ring_on_foreground_witness :
  0 <= 2 - 0 < 4 /\ 0 <= 1 - 0 < 4 /\ read_u8 square4 ((1 - 0) * 4 + (2 - 0)) <> 0.
Proof.
  apply (maskToGeoJSON_ring_on_foreground square4 4 4 0 0
           (concat (repeat [(1, 1); (2, 1); (2, 2); (1, 2)] 6))).
  - lia.
  - rewrite square4_rings. left. reflexivity.
  - simpl. right. left. reflexivity.
Defined.

(** X9: for [width >= 1], consecutive points of the traced ring are
    8-neighbours: their difference is one of the eight [directions]. *)
Theorem maskToGeoJSON_ring_steps (m : list Z)
    (width height offsetX offsetY : Z) (ring : list (Z * Z)) :
  1 <= width ->
  In [ring] (rings (maskToGeoJSON m width height offsetX offsetY)) ->
  forall k, (S k < length ring)%nat ->
    In (fst (nth (S k) ring (0, 0)) - fst (nth k ring (0, 0)),
        snd (nth (S k) ring (0, 0)) - snd (nth k ring (0, 0))) directions.
Proof.
  intros Hw Hin.
  destruct (maskToGeoJSON_ring_trace _ _ _ _ _ _ Hin) as [E [fuel ->]].
  apply (traceLoop_adjacent (binarizeMask m width height) width height
           (firstForeground (binarizeMask m width height) 0) offsetX offsetY Hw).
  - simpl. intros k Hk. lia.
  - simpl. intros k Hk. discriminate.
Qed.

Lemma maskToGeoJSON_ring_steps_witness :
  let ring := concat (repeat [(1, 1); (2, 1); (2, 2); (1, 2)] 6) in
  In (fst (nth 4 ring (0, 0)) - fst (nth 3 ring (0, 0)),
      snd (nth 4 ring (0, 0)) - snd (nth 3 ring (0, 0))) directions.
Proof.
  apply (maskToGeoJSON_ring_steps square4 4 4 0 0).
  - lia.
  - rewrite square4_rings. left. reflexivity.
  - simpl. lia.
Defined.

Lemma traceLoop_shift bin width height start offsetX offsetY :
  let tr := fun p : Z * Z => (fst p + offsetX, snd p + offsetY) in
  forall fuel curr prevDir coords,
  traceLoop bin width height start offsetX offsetY fuel curr prevDir (map tr coords) =
  map tr (traceLoop bin width height start 0 0 fuel curr prevDir coords).
Proof.
  intros tr. induction fuel as [|fuel IH]; intros curr prevDir coords; [reflexivity|].
  rewrite !traceLoop_step.
  destruct (idxToXY width curr) as [cx cy].
  assert (Ec : map tr coords ++ [(cx + offsetX, cy + offsetY)] =
               map tr (coords ++ [(cx + 0, cy + 0)])).
  { rewrite map_app. simpl. unfold tr. simpl. rewrite !Z.add_0_r. reflexivity. }
  rewrite Ec.
  destruct (scanNeighbours bin width height cx cy prevDir eight) as [[ni di]|];
    [|reflexivity].
  cbv beta iota zeta. rewrite length_map.
  match goal with |- context [if ?b then _ else _] => destruct b end; [reflexivity|]. apply IH.
Qed.

(** X10: the offset only translates the result: the rings of
    [maskToGeoJSON mask width height offsetX offsetY] are those of the call
    with offset [(0, 0)], every point shifted by [(offsetX, offsetY)]. *)
Theorem maskToGeoJSON_offset (m : list Z) (width height offsetX offsetY : Z) :
  rings (maskToGeoJSON m width height offsetX offsetY) =
  map (map (map (fun p => (fst p + offsetX, snd p + offsetY))))
    (rings (maskToGeoJSON m width height 0 0)).
Proof.
  unfold maskToGeoJSON. generalize LOOP_GUARD as fuel. intros fuel.
  destruct (firstForeground (binarizeMask m width height) 0 =? -1); [reflexivity|].
  unfold rings. simpl.
  rewrite <- (traceLoop_shift _ _ _ _ _ _ fuel _ 0 []). reflexivity.
Qed.

(** ** Output tensors without two dimensions *)

(** X11: when the model is ready, the crop is readable and the first input
    name tried (the session's first [inputNames], or ["input"] when it
    declares none) returns an output tensor with fewer than two dimensions,
    [ow * oh] is [NaN]: [segmentBoxOnCanvas] returns an all-zero [sw x sh]
    mask from the model branch instead of falling back to the colour
    threshold. *)
Theorem segmentBoxOnCanvas_flat_output
    (stretch : list Z -> Z -> Z -> Z -> list Z) (sess : Session)
    (src : Raster) (box : Box) (name : string) (rest : list string)
    (outName : string) (outTensor : Tensor) (more : list (string * Tensor)) :
  crop_readable src box = true ->
  let sx := Z.max 0 (Qfloor (box_x box)) in
  let sy := Z.max 0 (Qfloor (box_y box)) in
  let sw := Z.max 1 (Qfloor (box_w box)) in
  let sh := Z.max 1 (Qfloor (box_h box)) in
  let names := match inputNames sess with
               | Some ns => ns
               | None => default_input_names
               end in
  let inputTensor := buildInputTensor MODEL_SIZE
        (stretch (crop_canvas src sx sy sw sh sw sh) sw sh MODEL_SIZE) in
  names = name :: rest ->
  run sess name inputTensor = Ret ((outName, outTensor) :: more) ->
  (length (t_dims outTensor) < 2)%nat ->
  segmentBoxOnCanvas stretch true (Some sess) src box =
    Ret (mkSegResult (repeat 0 (Z.to_nat (sw * sh))) sw sh).
Proof.
  intros Hr sx sy sw sh names inputTensor Hn Hrun Hd.
  destruct (crop_readable_spec src box Hr) as [_ [_ [Hc [Hw [Hh Hl]]]]].
  fold sw sh in Hw, Hh, Hl.
  rewrite (segmentBoxOnCanvas_readable stretch true (Some sess) src box Hr).
  fold sx sy sw sh. cbv iota. unfold modelInference.
  replace (sw =? 0) with false by (symmetry; apply Z.eqb_neq; lia).
  replace (sh =? 0) with false by (symmetry; apply Z.eqb_neq; lia).
  rewrite Hc. cbn [orb negb]. fold inputTensor. fold names. rewrite Hn.
  cbn [tryInputNames]. unfold tryInputName. rewrite Hrun.
  unfold nth_dim_from_end.
  destruct (Nat.ltb_spec 0 (length (t_dims outTensor)));
    destruct (Nat.ltb_spec 1 (length (t_dims outTensor))); try lia;
    rewrite Hl; reflexivity.
Qed.

Lemma segmentBoxOnCanvas_flat_output_witness :
  let sess := mkSession None
    (fun _ _ => Ret [("masks"%string, mkTensor [2]%Q [1])]) in
  let box := mkBox 0 0 2 1 in
  segmentBoxOnCanvas (fun _ _ _ _ => []) true (Some sess) blue_and_grey box =
    Ret (mkSegResult (repeat 0 (Z.to_nat (Z.max 1 (Qfloor (box_w box))
                                          * Z.max 1 (Qfloor (box_h box)))))
           (Z.max 1 (Qfloor (box_w box))) (Z.max 1 (Qfloor (box_h box)))).
Proof.
  intros sess box.
  apply (segmentBoxOnCanvas_flat_output (fun _ _ _ _ => []) sess blue_and_grey box
           "input"%string ["images"; "image"; "input_image"]%string
           "masks"%string (mkTensor [2]%Q [1]) []).
  - reflexivity.
  - reflexivity.
  - reflexivity.
  - simpl. lia.
Defined.
